(** * tldns: a DNS-over-TLS terminating proxy (tldns/server.py)

    A shallow embedding of [DNSOverTLSServer]: the error responder
    [create_error_response], the forwarder [forward_dns_query] and the
    per-connection framing loop [handle_client].

    The process talks to three things it does not own: the DNS codec
    (dnspython), the upstream resolver reached over UDP, and the TLS socket
    of the client.  The codec is an interface ([Codec]); the socket and the
    network are operations over an abstract world ([Env]).  Every call the
    server makes on them is recorded in a trace, so that statements such as
    "the socket is closed once" or "nothing is sent" can be read off it. *)

From Stdlib Require Import List ZArith Lia Bool String.
From Stdlib Require Import Init.Byte Strings.Byte.
Import ListNotations.

Local Open Scope Z_scope.

(** ** Python values *)

(** [bytes]: an immutable sequence of octets. *)
Definition bytes := list byte.

(** [len(b)], a Python int. *)
Definition len {A : Type} (l : list A) : Z := Z.of_nat (List.length l).

(** [not b] for a bytes object: true on the empty sequence only. *)
Definition is_empty {A : Type} (l : list A) : bool :=
  match l with
  | [] => true
  | _ :: _ => false
  end.

(** The exceptions the server can meet.  All of them derive from Python's
    [Exception], which is what every [except Exception] clause of server.py
    catches. *)
Inductive exn : Type :=
| OverflowError      (* int too big to convert *)
| ShortHeader        (* dns.message.ShortHeader *)
| TrailingJunk       (* dns.message.TrailingJunk *)
| FormError          (* dns.exception.FormError *)
| TooBig             (* dns.exception.TooBig *)
| Timeout            (* dns.exception.Timeout *)
| OSError            (* socket-level failure *)
| SSLError           (* ssl.SSLError *)
| StopIteration      (* an exhausted test double *)
| OtherException (name : string).

(** The result of evaluating an expression: a value, or a raised exception. *)
Inductive outcome (A : Type) : Type :=
| Ok (a : A)
| Raise (e : exn).

Arguments Ok {A} a.
Arguments Raise {A} e.

(** ** Integers to and from bytes *)

Definition Z_of_byte (b : byte) : Z := Z.of_N (Byte.to_N b).

Definition byte_of_Z (z : Z) : byte :=
  match Byte.of_N (Z.to_N (z mod 256)) with
  | Some b => b
  | None => x00
  end.

(** [int.from_bytes(data, byteorder="big")], unsigned. *)
Definition int_from_bytes (data : bytes) : Z :=
  fold_left (fun acc b => acc * 256 + Z_of_byte b) data 0.

(** The [length] low-order base-256 digits of [n], most significant first. *)
Fixpoint big_endian (length : nat) (n : Z) : bytes :=
  match length with
  | O => []
  | S k => big_endian k (n / 256) ++ [byte_of_Z n]
  end.

(** [n.to_bytes(length, byteorder="big")], unsigned: OverflowError when [n]
    is negative or does not fit in [length] bytes. *)
Definition int_to_bytes (n : Z) (length : nat) : outcome bytes :=
  if (0 <=? n) && (n <? 256 ^ Z.of_nat length)
  then Ok (big_endian length n)
  else Raise OverflowError.

(** ** The DNS codec (dnspython), as the server uses it *)

(** [dns.rcode.SERVFAIL] *)
Definition SERVFAIL : Z := 2.

Record Codec : Type := {
  message : Type;                               (* dns.message.Message *)
  question : Type;                              (* an entry of .question *)
  rrset : Type;                                 (* an entry of .answer *)
  from_wire : bytes -> outcome message;         (* dns.message.from_wire *)
  to_wire : message -> outcome bytes;           (* Message.to_wire *)
  make_response : message -> outcome message;   (* dns.message.make_response *)
  set_rcode : message -> Z -> message;          (* Message.set_rcode *)
  msg_id : message -> Z;                        (* Message.id *)
  msg_question : message -> list question;      (* Message.question *)
  msg_answer : message -> list rrset;           (* Message.answer *)
  msg_rcode : message -> Z                      (* Message.rcode() *)
}.

(** What the server relies on from the codec, as dnspython documents it:
    a response made from a query repeats its id and question section,
    setting the rcode changes nothing else, and a serialized message starts
    with the 12-byte DNS header and is at most 65535 bytes long ([to_wire]
    raises [TooBig] beyond its [max_size], 65535 when it is not given). *)
Record CodecLaws (C : Codec) : Prop := {
  make_response_id :
    forall q r, make_response C q = Ok r -> msg_id C r = msg_id C q;
  make_response_question :
    forall q r, make_response C q = Ok r ->
                msg_question C r = msg_question C q;
  set_rcode_rcode :
    forall m rc, 0 <= rc < 16 -> msg_rcode C (set_rcode C m rc) = rc;
  set_rcode_id :
    forall m rc, msg_id C (set_rcode C m rc) = msg_id C m;
  set_rcode_question :
    forall m rc, msg_question C (set_rcode C m rc) = msg_question C m;
  to_wire_header :
    forall m b, to_wire C m = Ok b -> 12 <= len b;
  to_wire_max_size :
    forall m b, to_wire C m = Ok b -> len b <= 65535
}.

(** ** Sockets, the network and the log *)

(** A socket object, by identity. *)
Definition socket := nat.

(** A peer address, [Tuple[str, int]]. *)
Definition address : Type := string * Z.

Inductive level : Type := DEBUG | INFO | WARNING | ERROR.

Section Model.

Variable C : Codec.

(** The messages the server logs, one constructor per format string. *)
Inductive log_msg : Type :=
| ForwardingQuery (q : option (question C)) (upstream : string)
| ReceivedResponse (q : option (question C)) (answers : Z)
| ErrorForwarding (e : exn)
| CreatedServfail
| FailedErrorResponse (e : exn)
| NewConnection (addr : address)
| IncompleteLength (addr : address)
| Expecting (query_length : Z) (addr : address)
| IncompleteQuery (addr : address) (expected got : Z)
| SentResponse (n : Z) (addr : address)
| ErrorHandlingClient (addr : address) (e : exn)
| ConnectionClosed (addr : address) (query_count : Z).

(** The calls the server makes on its surroundings. *)
Inductive event : Type :=
| EvRecv (s : socket) (bufsize : Z)                   (* s.recv(bufsize) *)
| EvSend (s : socket) (data : bytes)                  (* s.send(data) *)
| EvClose (s : socket)                                (* s.close() *)
| EvUdp (q : message C) (where_ : string) (timeout : Z) (* dns.query.udp *)
| EvLog (lvl : level) (m : log_msg).                  (* self.logger.<lvl> *)

(** The surroundings: what the peer and the resolver answer to each call.
    [recv] returns the bytes read (empty at end of stream) or raises, [send]
    returns the number of bytes taken or raises, [dns.query.udp] returns the
    resolver's message or raises. *)
Record Env : Type := {
  world : Type;
  sock_recv : socket -> Z -> world -> outcome bytes * world;
  sock_send : socket -> bytes -> world -> outcome Z * world;
  sock_close : socket -> world -> outcome unit * world;
  query_udp : message C -> string -> Z -> world -> outcome (message C) * world
}.

Variable E : Env.

Record state : Type := {
  st_world : world E;
  st_trace : list event
}.

Definition record (ev : event) (w : world E) (st : state) : state :=
  {| st_world := w; st_trace := st_trace st ++ [ev] |}.

(** Statements that may raise, over the state. *)
Definition M (A : Type) : Type := state -> outcome A * state.

Definition ret {A : Type} (a : A) : M A := fun st => (Ok a, st).

Definition bind {A B : Type} (m : M A) (k : A -> M B) : M B :=
  fun st =>
    match m st with
    | (Ok a, st1) => k a st1
    | (Raise e, st1) => (Raise e, st1)
    end.

(** A pure expression that may raise. *)
Definition eval {A : Type} (r : outcome A) : M A := fun st => (r, st).

(** [try: body  except Exception as e: handler e] *)
Definition try_except {A : Type} (body : M A) (handler : exn -> M A) : M A :=
  fun st =>
    match body st with
    | (Ok a, st1) => (Ok a, st1)
    | (Raise e, st1) => handler e st1
    end.

(** [try: body  finally: final]: [final] runs on both exits of [body]; an
    exception of [final] replaces the outcome of [body]. *)
Definition try_finally {A : Type} (body : M A) (final : M unit) : M A :=
  fun st =>
    match body st with
    | (r, st1) =>
        match final st1 with
        | (Ok _, st2) => (r, st2)
        | (Raise e, st2) => (Raise e, st2)
        end
    end.

Notation "x <- m ;; k" := (bind m (fun x => k))
  (at level 100, m at next level, right associativity).
Notation "m ;;; k" := (bind m (fun _ => k))
  (at level 100, right associativity).

Definition log (lvl : level) (m : log_msg) : M unit :=
  fun st => (Ok tt, record (EvLog lvl m) (st_world st) st).

Definition recv (s : socket) (bufsize : Z) : M bytes :=
  fun st =>
    let (r, w) := sock_recv E s bufsize (st_world st) in
    (r, record (EvRecv s bufsize) w st).

Definition send (s : socket) (data : bytes) : M Z :=
  fun st =>
    let (r, w) := sock_send E s data (st_world st) in
    (r, record (EvSend s data) w st).

Definition close (s : socket) : M unit :=
  fun st =>
    let (r, w) := sock_close E s (st_world st) in
    (r, record (EvClose s) w st).

Definition udp (q : message C) (where_ : string) (timeout : Z)
  : M (message C) :=
  fun st =>
    let (r, w) := query_udp E q where_ timeout (st_world st) in
    (r, record (EvUdp q where_ timeout) w st).

(** ** The server *)

Record DNSOverTLSServer : Type := {
  host : string;
  port : Z;
  cert_file : string;
  key_file : string;
  upstream_dns : string
}.

Variable self : DNSOverTLSServer.

(** [query.question[0] if query.question else None] *)
Definition first_question (query : message C) : option (question C) :=
  match msg_question C query with
  | [] => None
  | q :: _ => Some q
  end.

(** The [try] suite of [create_error_response]. *)
Definition servfail_for (query_data : bytes) : M bytes :=
  query <- eval (from_wire C query_data) ;;
  response <- eval (make_response C query) ;;
  let response := set_rcode C response SERVFAIL in
  log DEBUG CreatedServfail ;;;
  eval (to_wire C response).

Definition create_error_response (query_data : bytes) : M bytes :=
  try_except
    (servfail_for query_data)
    (fun e => log ERROR (FailedErrorResponse e) ;;; ret []).

(** The [try] suite of [forward_dns_query]. *)
Definition forward_upstream (query_data : bytes) : M bytes :=
  query <- eval (from_wire C query_data) ;;
  let question := first_question query in
  log DEBUG (ForwardingQuery question (upstream_dns self)) ;;;
  response <- udp query (upstream_dns self) 5 ;;
  log DEBUG (ReceivedResponse question (len (msg_answer C response))) ;;;
  eval (to_wire C response).

Definition forward_dns_query (query_data : bytes) : M bytes :=
  try_except
    (forward_upstream query_data)
    (fun e => log WARNING (ErrorForwarding e) ;;;
              create_error_response query_data).

(** The inner loop of [handle_client]:
    [while len(query_data) < query_length: ...].  Every turn that does not
    leave the loop makes [query_data] longer, so [fuel] turns are enough when
    [fuel] is at least the number of missing bytes; [None] is "out of fuel". *)
Fixpoint recv_payload (fuel : nat) (ssl_sock : socket) (query_length : Z)
    (query_data : bytes) (st : state) : option (outcome bytes * state) :=
  if len query_data <? query_length then
    match fuel with
    | O => None
    | S fuel' =>
        match recv ssl_sock (query_length - len query_data) st with
        | (Raise e, st1) => Some (Raise e, st1)
        | (Ok chunk, st1) =>
            if is_empty chunk then Some (Ok query_data, st1)
            else recv_payload fuel' ssl_sock query_length
                   (query_data ++ chunk) st1
        end
    end
  else Some (Ok query_data, st).

(** How the [while True] loop of [handle_client] is left. *)
Inductive loop_exit : Type :=
| Break                 (* a [break] statement *)
| Raised (e : exn).     (* an exception reached the [except] clause *)

(** The [while True] loop of [handle_client], from the top of one turn, with
    the current value of [query_count].  The loop has no bound of its own: a
    peer can send frames for ever, and [None] is "out of fuel". *)
Fixpoint handle_loop (fuel : nat) (ssl_sock : socket) (addr : address)
    (query_count : Z) (st : state) : option (loop_exit * Z * state) :=
  match fuel with
  | O => None
  | S fuel' =>
      match recv ssl_sock 2 st with
      | (Raise e, st1) => Some (Raised e, query_count, st1)
      | (Ok length_data, st1) =>
          if is_empty length_data then Some (Break, query_count, st1)
          else if len length_data <? 2 then
            Some (Break, query_count,
                  snd (log WARNING (IncompleteLength addr) st1))
          else
            let query_length := int_from_bytes length_data in
            let st2 := snd (log DEBUG (Expecting query_length addr) st1) in
            match recv_payload (S (Z.to_nat query_length)) ssl_sock
                               query_length [] st2 with
            | None => None
            | Some (Raise e, st3) => Some (Raised e, query_count, st3)
            | Some (Ok query_data, st3) =>
                if negb (len query_data =? query_length) then
                  Some (Break, query_count,
                        snd (log WARNING
                               (IncompleteQuery addr query_length
                                                (len query_data)) st3))
                else
                  let query_count := query_count + 1 in
                  match forward_dns_query query_data st3 with
                  | (Raise e, st4) => Some (Raised e, query_count, st4)
                  | (Ok response_data, st4) =>
                      match int_to_bytes (len response_data) 2 with
                      | Raise e => Some (Raised e, query_count, st4)
                      | Ok response_length =>
                          match send ssl_sock
                                     (response_length ++ response_data) st4
                          with
                          | (Raise e, st5) => Some (Raised e, query_count, st5)
                          | (Ok _, st5) =>
                              handle_loop fuel' ssl_sock addr query_count
                                (snd (log DEBUG
                                        (SentResponse (len response_data) addr)
                                        st5))
                          end
                      end
                  end
            end
      end
  end.

(** One frame was read in the turn of the loop that starts in [st]:
    [recv(2)] returned at least two bytes, and the payload loop returned
    [query_data], of the announced length, in state [st3]. *)
Definition reads_frame (ssl_sock : socket) (addr : address) (st : state)
    (query_data : bytes) (st3 : state) : Prop :=
  exists length_data w1,
    sock_recv E ssl_sock 2 (st_world st) = (Ok length_data, w1) /\
    2 <= len length_data /\
    recv_payload (S (Z.to_nat (int_from_bytes length_data))) ssl_sock
      (int_from_bytes length_data) []
      (snd (log DEBUG (Expecting (int_from_bytes length_data) addr)
              (record (EvRecv ssl_sock 2) w1 st)))
    = Some (Ok query_data, st3) /\
    len query_data = int_from_bytes length_data.

(** The [except] and [finally] clauses of [handle_client]. *)
Definition teardown (ssl_sock : socket) (addr : address)
    (exit : loop_exit) (query_count : Z) : M unit :=
  try_finally
    match exit with
    | Break => ret tt
    | Raised e => log ERROR (ErrorHandlingClient addr e)
    end
    (close ssl_sock ;;;
     log INFO (ConnectionClosed addr query_count)).

(** The connection from the top of a turn of the loop to the return of
    [handle_client]. *)
Definition serve (fuel : nat) (ssl_sock : socket) (addr : address)
    (query_count : Z) (st : state) : option (outcome unit * state) :=
  match handle_loop fuel ssl_sock addr query_count st with
  | None => None
  | Some (exit, query_count', st1) =>
      Some (teardown ssl_sock addr exit query_count' st1)
  end.

Definition handle_client (fuel : nat) (ssl_sock : socket) (addr : address)
    (st : state) : option (outcome unit * state) :=
  serve fuel ssl_sock addr 0 (snd (log INFO (NewConnection addr) st)).

End Model.

Arguments EvRecv {C} s bufsize.
Arguments EvSend {C} s data.
Arguments EvClose {C} s.
Arguments EvUdp {C} q where_ timeout.
Arguments EvLog {C} lvl m.
Arguments ForwardingQuery {C} q upstream.
Arguments ReceivedResponse {C} q answers.
Arguments ErrorForwarding {C} e.
Arguments CreatedServfail {C}.
Arguments FailedErrorResponse {C} e.
Arguments NewConnection {C} addr.
Arguments IncompleteLength {C} addr.
Arguments Expecting {C} query_length addr.
Arguments IncompleteQuery {C} addr expected got.
Arguments SentResponse {C} n addr.
Arguments ErrorHandlingClient {C} addr e.
Arguments ConnectionClosed {C} addr query_count.
Arguments record {C E} ev w st.
Arguments st_world {C E} s.
Arguments st_trace {C E} s.

(** ** A reference codec

    The DNS wire format of RFC 1035, for messages whose names are written
    without compression: the 12-byte header, the question section and three
    sections of resource records whose data is kept as opaque bytes.  It
    rejects what [dns.message.from_wire] rejects on such input: fewer than
    12 bytes ([ShortHeader]), a section shorter than its count announces
    ([FormError]), bytes after the last record ([TrailingJunk]).  A
    compression pointer is refused as a bad label. *)
Module Wire.

Record Question : Type := {
  q_name : list bytes;      (* the labels of the name *)
  q_type : Z;
  q_class : Z
}.

Record RR : Type := {
  rr_name : list bytes;
  rr_type : Z;
  rr_class : Z;
  rr_ttl : Z;
  rr_rdata : bytes
}.

Record Message : Type := {
  id : Z;
  flags : Z;
  questions : list Question;
  answer : list RR;
  authority : list RR;
  additional : list RR
}.

(** dns.flags *)
Definition QR : Z := 32768.          (* 0x8000 *)
Definition RD : Z := 256.            (* 0x0100 *)
Definition OPCODE_MASK : Z := 30720. (* 0x7800 *)

Definition and_then {A B : Type} (r : outcome A) (k : A -> outcome B)
  : outcome B :=
  match r with
  | Ok a => k a
  | Raise e => Raise e
  end.

Notation "'let*' x := r 'in' k" := (and_then r (fun x => k))
  (at level 10, x pattern, r at level 100, k at level 200).

Definition take (n : nat) (bs : bytes) : outcome (bytes * bytes) :=
  if (n <=? List.length bs)%nat then Ok (firstn n bs, skipn n bs)
  else Raise FormError.

Definition read_int (width : nat) (bs : bytes) : outcome (Z * bytes) :=
  let* (digits, rest) := take width bs in
  Ok (int_from_bytes digits, rest).

Fixpoint read_name (fuel : nat) (bs : bytes) : outcome (list bytes * bytes) :=
  match fuel with
  | O => Raise FormError
  | S fuel' =>
      match bs with
      | [] => Raise FormError
      | count :: rest =>
          if Z_of_byte count =? 0 then Ok ([], rest)
          else if Z_of_byte count <? 64 then
            let* (label, rest1) := take (Z.to_nat (Z_of_byte count)) rest in
            let* (labels, rest2) := read_name fuel' rest1 in
            Ok (label :: labels, rest2)
          else Raise FormError
      end
  end.

Definition read_question (bs : bytes) : outcome (Question * bytes) :=
  let* (name, r1) := read_name (List.length bs) bs in
  let* (rdtype, r2) := read_int 2 r1 in
  let* (rdclass, r3) := read_int 2 r2 in
  Ok ({| q_name := name; q_type := rdtype; q_class := rdclass |}, r3).

Definition read_rr (bs : bytes) : outcome (RR * bytes) :=
  let* (name, r1) := read_name (List.length bs) bs in
  let* (rdtype, r2) := read_int 2 r1 in
  let* (rdclass, r3) := read_int 2 r2 in
  let* (ttl, r4) := read_int 4 r3 in
  let* (rdlen, r5) := read_int 2 r4 in
  let* (rdata, r6) := take (Z.to_nat rdlen) r5 in
  Ok ({| rr_name := name; rr_type := rdtype; rr_class := rdclass;
         rr_ttl := ttl; rr_rdata := rdata |}, r6).

Fixpoint read_many {A : Type} (read : bytes -> outcome (A * bytes))
    (count : nat) (bs : bytes) : outcome (list A * bytes) :=
  match count with
  | O => Ok ([], bs)
  | S count' =>
      let* (x, r1) := read bs in
      let* (xs, r2) := read_many read count' r1 in
      Ok (x :: xs, r2)
  end.

Definition from_wire (wire : bytes) : outcome Message :=
  if len wire <? 12 then Raise ShortHeader
  else
    let* (ident, r1) := read_int 2 wire in
    let* (fl, r2) := read_int 2 r1 in
    let* (qcount, r3) := read_int 2 r2 in
    let* (ancount, r4) := read_int 2 r3 in
    let* (aucount, r5) := read_int 2 r4 in
    let* (adcount, r6) := read_int 2 r5 in
    let* (qs, r7) := read_many read_question (Z.to_nat qcount) r6 in
    let* (an, r8) := read_many read_rr (Z.to_nat ancount) r7 in
    let* (au, r9) := read_many read_rr (Z.to_nat aucount) r8 in
    let* (ad, r10) := read_many read_rr (Z.to_nat adcount) r9 in
    if is_empty r10 then
      Ok {| id := ident; flags := fl; questions := qs;
            answer := an; authority := au; additional := ad |}
    else Raise TrailingJunk.

Definition put_name (labels : list bytes) : bytes :=
  flat_map (fun label => byte_of_Z (len label) :: label) labels ++ [x00].

Definition put_question (q : Question) : bytes :=
  put_name (q_name q) ++ big_endian 2 (q_type q) ++ big_endian 2 (q_class q).

Definition put_rr (r : RR) : bytes :=
  put_name (rr_name r) ++ big_endian 2 (rr_type r)
  ++ big_endian 2 (rr_class r) ++ big_endian 4 (rr_ttl r)
  ++ big_endian 2 (len (rr_rdata r)) ++ rr_rdata r.

Definition put_header (m : Message) : bytes :=
  big_endian 2 (id m) ++ big_endian 2 (flags m)
  ++ big_endian 2 (len (questions m)) ++ big_endian 2 (len (answer m))
  ++ big_endian 2 (len (authority m)) ++ big_endian 2 (len (additional m)).

(** The largest message [to_wire] renders. *)
Definition MAX_SIZE : Z := 65535.

Definition to_wire (m : Message) : outcome bytes :=
  let out :=
    put_header m ++ flat_map put_question (questions m)
    ++ flat_map put_rr (answer m) ++ flat_map put_rr (authority m)
    ++ flat_map put_rr (additional m) in
  if len out <=? MAX_SIZE then Ok out else Raise TooBig.

(** A response is made from a query only: a message with QR set is
    refused.  The response repeats the id, the opcode, RD and the question
    section. *)
Definition make_response (query : Message) : outcome Message :=
  if Z.land (flags query) QR =? 0 then
    Ok {| id := id query;
          flags := Z.lor QR (Z.land (flags query) (Z.lor RD OPCODE_MASK));
          questions := questions query;
          answer := []; authority := []; additional := [] |}
  else Raise FormError.

Definition set_rcode (m : Message) (rc : Z) : Message :=
  {| id := id m;
     flags := Z.lor (Z.land (flags m) 65520) rc;
     questions := questions m;
     answer := answer m; authority := authority m;
     additional := additional m |}.

Definition rcode (m : Message) : Z := Z.land (flags m) 15.

Definition codec : Codec :=
  Build_Codec Message Question RR
    from_wire to_wire make_response set_rcode
    id questions answer rcode.

(** The lenient decode of the specification: "sufficient only to recover
    the query identifier and the original question section".  It reads the
    identifier and the announced number of questions and looks at nothing
    after them.  server.py has no such function; it is here to state what
    the specification expects of [create_error_response]. *)
Definition recover_id_question (wire : bytes)
  : option (Z * list Question) :=
  match
    (let* (ident, r1) := read_int 2 wire in
     let* (_, r2) := read_int 2 r1 in
     let* (qcount, r3) := read_int 2 r2 in
     let* (_, r6) := take 6 r3 in
     let* (qs, _) := read_many read_question (Z.to_nat qcount) r6 in
     Ok (ident, qs))
  with
  | Ok found => Some found
  | Raise _ => None
  end.

End Wire.

(** ** A scripted peer and resolver

    The surroundings the tests of the repository use: the answers of
    [recv] and of [dns.query.udp] are played from a list, one per call, as
    the [side_effect] lists of [unittest.mock] are; an exhausted list raises
    [StopIteration].  [send] takes all the bytes and [close] succeeds. *)
Module Scripted.

Section Double.

Variable C : Codec.

Record peer : Type := {
  inbox : list (outcome bytes);
  resolver : list (outcome (message C))
}.

Definition play_recv (_ : socket) (_ : Z) (w : peer)
  : outcome bytes * peer :=
  match inbox w with
  | [] => (Raise StopIteration, w)
  | r :: rest => (r, {| inbox := rest; resolver := resolver w |})
  end.

Definition play_udp (_ : message C) (_ : string) (_ : Z) (w : peer)
  : outcome (message C) * peer :=
  match resolver w with
  | [] => (Raise StopIteration, w)
  | r :: rest => (r, {| inbox := inbox w; resolver := rest |})
  end.

Definition env : Env C := {|
  world := peer;
  sock_recv := play_recv;
  sock_send := fun _ data w => (Ok (len data), w);
  sock_close := fun _ w => (Ok tt, w);
  query_udp := play_udp
|}.

Definition start (inbox : list (outcome bytes))
    (resolver : list (outcome (message C))) : state C env :=
  {| st_world := ({| inbox := inbox; resolver := resolver |} : world C env);
     st_trace := [] |}.

(** The entries of the script that [recv] has not played yet. *)
Definition pending (st : state C env) : nat :=
  List.length (inbox (st_world st)).

Definition no_more_pending (st st' : state C env) : Prop :=
  (pending st' <= pending st)%nat.

End Double.

End Scripted.

(** ** A peer behind a byte stream

    What a TCP or TLS socket does with [recv(bufsize)]: the bytes of the
    peer arrive in segments; a call returns the bytes of the first pending
    segment, [bufsize] of them at most, and leaves the others pending; at the
    end of the stream it returns no byte.  The resolver is scripted, [send]
    takes all the bytes and [close] succeeds. *)
Module Stream.

Section Double.

Variable C : Codec.

Record peer : Type := {
  pending : list bytes;
  resolver : list (outcome (message C))
}.

Definition read (_ : socket) (bufsize : Z) (w : peer)
  : outcome bytes * peer :=
  match pending w with
  | [] => (Ok [], w)
  | segment :: rest =>
      if (List.length segment <=? Z.to_nat bufsize)%nat then
        (Ok segment, {| pending := rest; resolver := resolver w |})
      else
        (Ok (firstn (Z.to_nat bufsize) segment),
         {| pending := skipn (Z.to_nat bufsize) segment :: rest;
            resolver := resolver w |})
  end.

Definition ask (_ : message C) (_ : string) (_ : Z) (w : peer)
  : outcome (message C) * peer :=
  match resolver w with
  | [] => (Raise Timeout, w)
  | r :: rest => (r, {| pending := pending w; resolver := rest |})
  end.

Definition env : Env C := {|
  world := peer;
  sock_recv := read;
  sock_send := fun _ data w => (Ok (len data), w);
  sock_close := fun _ w => (Ok tt, w);
  query_udp := ask
|}.

Definition start (segments : list bytes)
    (answers : list (outcome (message C))) : state C env :=
  {| st_world := ({| pending := segments; resolver := answers |}
                  : world C env);
     st_trace := [] |}.

(** The segments still to be read. *)
Definition unread (st : state C env) : list bytes := pending (st_world st).

(** A segment that holds one byte at least. *)
Definition whole (segment : bytes) : Prop := segment <> [].

(** The segments that stay pending once [n] bytes are read from the first
    segment. *)
Definition after_read (n : nat) (segments : list bytes) : list bytes :=
  match segments with
  | [] => []
  | segment :: rest =>
      if (List.length segment <=? n)%nat then rest
      else skipn n segment :: rest
  end.

(** The segments that stay pending once the payload loop has taken [n]
    bytes, one [recv] after the other. *)
Fixpoint after_payload (fuel : nat) (n : nat) (segments : list bytes)
  : list bytes :=
  match fuel, n, segments with
  | S fuel', S _, segment :: rest =>
      if (List.length segment <=? n)%nat
      then after_payload fuel' (n - List.length segment) rest
      else skipn n segment :: rest
  | _, _, _ => segments
  end.


End Double.

End Stream.

(** ** The codec patched out

    The stand-ins of tests/test_server.py: [from_wire] returns an object
    that remembers the bytes, and [to_wire] returns the bytes the test chose
    for it, of whatever length. *)
Module Patched.

Record stand_in : Type := { wire : bytes }.

Definition codec : Codec :=
  Build_Codec stand_in unit unit
    (fun data => Ok {| wire := data |})
    (fun m => Ok (wire m))
    (fun m => Ok m)
    (fun m _ => m)
    (fun _ => 0) (fun _ => []) (fun _ => []) (fun _ => 0).

End Patched.

(** ** Reading traces *)

Section Traces.

Variable C : Codec.
Variable E : Env C.

Definition is_recv (ev : event C) : bool :=
  match ev with EvRecv _ _ => true | _ => false end.

Definition is_send (ev : event C) : bool :=
  match ev with EvSend _ _ => true | _ => false end.

Definition is_close (ev : event C) : bool :=
  match ev with EvClose _ => true | _ => false end.

Definition is_log (ev : event C) : bool :=
  match ev with EvLog _ _ => true | _ => false end.

(** The number of [close()] calls in a trace. *)
Definition closes (evs : list (event C)) : nat :=
  List.length (filter is_close evs).

(** From [st] to [st'] the trace gained events that all satisfy [P], and
    lost none. *)
Definition grows_by (P : event C -> bool) (st st' : state C E) : Prop :=
  exists evs, st_trace st' = st_trace st ++ evs /\ forallb P evs = true.

(** The statement [m] relates the state it starts in to the state it ends
    in by [R], whatever its outcome. *)
Definition keeps (R : state C E -> state C E -> Prop) {A : Type}
    (m : M C E A) : Prop :=
  forall st r st', m st = (r, st') -> R st st'.

End Traces.

Arguments is_recv {C} ev.
Arguments is_send {C} ev.
Arguments is_close {C} ev.
Arguments is_log {C} ev.
Arguments closes {C} evs.
Arguments grows_by {C E} P st st'.

(** ** Inputs for the runs below *)
Module Examples.

(** [DNSOverTLSServer()], with the defaults of [__init__]. *)
Definition server : DNSOverTLSServer := {|
  host := "0.0.0.0";
  port := 853;
  cert_file := "server.crt";
  key_file := "server.key";
  upstream_dns := "8.8.8.8"
|}.

Definition client : address := ("127.0.0.1"%string, 12345).

Definition sock : socket := 5%nat.

(** The query [example.com. IN A], id 0x1234, RD set: 29 bytes. *)
Definition query : bytes :=
  [x12; x34; x01; x00; x00; x01; x00; x00; x00; x00; x00; x00;
   x07; x65; x78; x61; x6d; x70; x6c; x65; x03; x63; x6f; x6d; x00;
   x00; x01; x00; x01].

(** The same query followed by one stray byte: 30 bytes. *)
Definition junk_query : bytes := query ++ [xff].

(** What the resolver answers to [query]: the query with QR and RA set. *)
Definition answer : Wire.Message := {|
  Wire.id := 4660;
  Wire.flags := 33152;
  Wire.questions :=
    [{| Wire.q_name := [[x65; x78; x61; x6d; x70; x6c; x65]; [x63; x6f; x6d]];
        Wire.q_type := 1; Wire.q_class := 1 |}];
  Wire.answer := [];
  Wire.authority := [];
  Wire.additional := []
|}.

(** A peer and a resolver that speak the reference codec. *)
Definition env : Env Wire.codec := Scripted.env Wire.codec.

Definition start (inbox : list (outcome bytes))
    (resolver : list (outcome Wire.Message)) : state Wire.codec env :=
  Scripted.start Wire.codec inbox resolver.

(** A resolver stand-in whose [to_wire] returns 65536 bytes. *)
Definition oversized : bytes := repeat x00 (Z.to_nat 65536).

Definition patched_env : Env Patched.codec := Scripted.env Patched.codec.

Definition patched_start (inbox : list (outcome bytes))
    (resolver : list (outcome Patched.stand_in))
  : state Patched.codec patched_env :=
  Scripted.start Patched.codec inbox resolver.

(** A message with the QR bit set, sent as a query: the serialization of
    [answer]. *)
Definition answer_as_query : bytes :=
  [x12; x34; x81; x80; x00; x01; x00; x00; x00; x00; x00; x00;
   x07; x65; x78; x61; x6d; x70; x6c; x65; x03; x63; x6f; x6d; x00;
   x00; x01; x00; x01].


Definition stream_env : Env Wire.codec := Stream.env Wire.codec.

End Examples.

(** ** Counting calls *)

Section Calls.

Variable C : Codec.

Definition is_udp (ev : event C) : bool :=
  match ev with EvUdp _ _ _ => true | _ => false end.

(** The number of [send] calls, and of [dns.query.udp] calls, in a trace. *)
Definition sends (evs : list (event C)) : nat :=
  List.length (filter (@is_send C) evs).

Definition udps (evs : list (event C)) : nat :=
  List.length (filter is_udp evs).

(** A log call, or a [dns.query.udp] call to the resolver [upstream] with
    timeout 5. *)
Definition is_forwarding (upstream : string) (ev : event C) : bool :=
  match ev with
  | EvLog _ _ => true
  | EvUdp _ where_ timeout => String.eqb where_ upstream && (timeout =? 5)
  | _ => false
  end.

(** A [recv] call on the socket [s] for a number of bytes between 1 and
    [most]. *)
Definition is_recv_within (s : socket) (most : Z) (ev : event C) : bool :=
  match ev with
  | EvRecv s' n => Nat.eqb s' s && (0 <? n) && (n <=? most)
  | _ => false
  end.

End Calls.

Arguments is_udp {C} ev.
Arguments sends {C} evs.
Arguments udps {C} evs.
Arguments is_forwarding {C} upstream ev.
Arguments is_recv_within {C} s most ev.

(** ** The listener: [create_ssl_context] and [start]

    [start] runs in the main thread, where Ctrl-C arrives as
    [KeyboardInterrupt].  That exception does not derive from [Exception]:
    [except Exception] lets it through and [except KeyboardInterrupt]
    catches nothing else.  The handler threads run on their own; here a
    started thread is a call in the trace. *)
Module Listener.

Inductive raised : Type :=
| Exc (e : exn)            (* an instance of [Exception] *)
| KeyboardInterrupt.

Inductive result (A : Type) : Type :=
| Returned (a : A)
| Raising (x : raised).

Arguments Returned {A} a.
Arguments Raising {A} x.

(** An [ssl.SSLContext] object, by identity. *)
Definition ssl_context := nat.

Inductive message : Type :=
| Starting (host : string) (port : Z)
| UpstreamServer (upstream : string)
| ContextCreated (cert key : string)
| ContextFailed (e : exn)
| Listening (host : string) (port : Z)
| HandshakeFailed (addr : address) (e : exn)
| ShutdownSignal.

Inductive event : Type :=
| Log (lvl : level) (m : message)
| SSLContext                (* ssl.SSLContext(ssl.PROTOCOL_TLS_SERVER) *)
| LoadCertChain (context : ssl_context) (cert key : string)
| Socket                    (* socket.socket(AF_INET, SOCK_STREAM) *)
| Setsockopt (s : socket)   (* SOL_SOCKET, SO_REUSEADDR, 1 *)
| Bind (s : socket) (host : string) (port : Z)
| Listen (s : socket) (backlog : Z)
| Accept (s : socket)
| WrapSocket (context : ssl_context) (client_sock : socket)
| Close (s : socket)
| Thread (ssl_sock : socket) (addr : address).
    (* Thread(target=self.handle_client, args=(ssl_sock, addr)),
       daemon = True, start() *)

Record Env : Type := {
  world : Type;
  new_context : world -> result ssl_context * world;
  load_cert_chain :
    ssl_context -> string -> string -> world -> result unit * world;
  new_socket : world -> result socket * world;
  set_reuseaddr : socket -> world -> result unit * world;
  bind_socket : socket -> string -> Z -> world -> result unit * world;
  listen_socket : socket -> Z -> world -> result unit * world;
  accept_socket : socket -> world -> result (socket * address) * world;
  wrap_socket : ssl_context -> socket -> world -> result socket * world;
  close_socket : socket -> world -> result unit * world;
  start_thread : socket -> address -> world -> result unit * world
}.

Section Model.

Variable E : Env.
Variable self : DNSOverTLSServer.

Record state : Type := {
  st_world : world E;
  st_trace : list event
}.

Definition M (A : Type) : Type := state -> result A * state.

Definition ret {A : Type} (a : A) : M A := fun st => (Returned a, st).

Definition raise {A : Type} (x : raised) : M A := fun st => (Raising x, st).

Definition bind {A B : Type} (m : M A) (k : A -> M B) : M B :=
  fun st =>
    match m st with
    | (Returned a, st1) => k a st1
    | (Raising x, st1) => (Raising x, st1)
    end.

Notation "x <- m ;; k" := (bind m (fun x => k))
  (at level 100, m at next level, right associativity).
Notation "m ;;; k" := (bind m (fun _ => k))
  (at level 100, right associativity).

(** One call on the surroundings, recorded. *)
Definition call {A : Type} (ev : event)
    (op : world E -> result A * world E) : M A :=
  fun st =>
    let (r, w) := op (st_world st) in
    (r, {| st_world := w; st_trace := st_trace st ++ [ev] |}).

Definition log (lvl : level) (m : message) : M unit :=
  call (Log lvl m) (fun w => (Returned tt, w)).

(** [try: body  except Exception as e: handler e] *)
Definition except_Exception {A : Type} (body : M A) (handler : exn -> M A)
  : M A :=
  fun st =>
    match body st with
    | (Raising (Exc e), st1) => handler e st1
    | other => other
    end.

(** [try: body  except KeyboardInterrupt: handler] *)
Definition except_KeyboardInterrupt {A : Type} (body : M A) (handler : M A)
  : M A :=
  fun st =>
    match body st with
    | (Raising KeyboardInterrupt, st1) => handler st1
    | other => other
    end.

Definition create_ssl_context : M ssl_context :=
  except_Exception
    (context <- call SSLContext (new_context E) ;;
     call (LoadCertChain context (cert_file self) (key_file self))
          (load_cert_chain E context (cert_file self) (key_file self)) ;;;
     log INFO (ContextCreated (cert_file self) (key_file self)) ;;;
     ret context)
    (fun e => log ERROR (ContextFailed e) ;;; raise (Exc e)).

(** How the [while True] loop of [start] goes on after one connection. *)
Inductive turn : Type :=
| Continue
| Stop (x : raised).

(** One turn of the loop: from [sock.accept()] to the started thread, or
    to the [continue] of the handshake failure. *)
Definition accept_one (context : ssl_context) (sock : socket)
    (st : state) : turn * state :=
  match call (Accept sock) (accept_socket E sock) st with
  | (Raising x, st1) => (Stop x, st1)
  | (Returned (client_sock, addr), st1) =>
      match
        call (WrapSocket context client_sock)
             (wrap_socket E context client_sock) st1
      with
      | (Raising (Exc e), st2) =>
          match
            (log ERROR (HandshakeFailed addr e) ;;;
             call (Close client_sock) (close_socket E client_sock)) st2
          with
          | (Raising x, st3) => (Stop x, st3)
          | (Returned _, st3) => (Continue, st3)
          end
      | (Raising KeyboardInterrupt, st2) => (Stop KeyboardInterrupt, st2)
      | (Returned ssl_sock, st2) =>
          match
            call (Thread ssl_sock addr) (start_thread E ssl_sock addr) st2
          with
          | (Raising x, st3) => (Stop x, st3)
          | (Returned _, st3) => (Continue, st3)
          end
      end
  end.

(** The [while True] loop of [start].  It has no [break]: it is left by an
    exception only.  [None] is "out of fuel". *)
Fixpoint accept_loop (fuel : nat) (context : ssl_context) (sock : socket)
    (st : state) : option (raised * state) :=
  match fuel with
  | O => None
  | S fuel' =>
      match accept_one context sock st with
      | (Stop x, st1) => Some (x, st1)
      | (Continue, st1) => accept_loop fuel' context sock st1
      end
  end.

(** The suite of the [with] statement of [start]. *)
Definition listen_and_serve (fuel : nat) (context : ssl_context)
    (sock : socket) (st : state) : option (result unit * state) :=
  match
    (call (Setsockopt sock) (set_reuseaddr E sock) ;;;
     call (Bind sock (host self) (port self))
          (bind_socket E sock (host self) (port self)) ;;;
     call (Listen sock 5) (listen_socket E sock 5) ;;;
     log INFO (Listening (host self) (port self))) st
  with
  | (Raising x, st1) => Some (Raising x, st1)
  | (Returned _, st1) =>
      match accept_loop fuel context sock st1 with
      | None => None
      | Some (x, st2) =>
          Some (except_KeyboardInterrupt (raise x)
                  (log INFO ShutdownSignal) st2)
      end
  end.

(** [with socket.socket(...) as sock: suite]: the socket is closed when
    the suite is left, by return or by exception; an exception of that
    [close] replaces the outcome of the suite. *)
Definition with_socket (suite : socket -> state -> option (result unit * state))
    (st : state) : option (result unit * state) :=
  match call Socket (new_socket E) st with
  | (Raising x, st1) => Some (Raising x, st1)
  | (Returned sock, st1) =>
      match suite sock st1 with
      | None => None
      | Some (r, st2) =>
          match call (Close sock) (close_socket E sock) st2 with
          | (Returned _, st3) => Some (r, st3)
          | (Raising x, st3) => Some (Raising x, st3)
          end
      end
  end.

(** The state in which [start] calls [create_ssl_context]: the two
    opening lines are logged. *)
Definition announced (st : state) : state :=
  {| st_world := st_world st;
     st_trace :=
       st_trace st
       ++ [Log INFO (Starting (host self) (port self));
           Log INFO (UpstreamServer (upstream_dns self))] |}.

Definition start (fuel : nat) (st : state) : option (result unit * state) :=
  match
    (log INFO (Starting (host self) (port self)) ;;;
     log INFO (UpstreamServer (upstream_dns self)) ;;;
     create_ssl_context) st
  with
  | (Raising x, st1) => Some (Raising x, st1)
  | (Returned context, st1) =>
      with_socket (listen_and_serve fuel context) st1
  end.

End Model.

Arguments st_world {E} s.
Arguments st_trace {E} s.

(** *** Reading listener traces *)

Definition is_setup (ev : event) : bool :=
  match ev with
  | Log _ _ | SSLContext | LoadCertChain _ _ _ => true
  | _ => false
  end.

(** The threads started, and the sockets closed, in order. *)
Fixpoint threads (evs : list event) : list (socket * address) :=
  match evs with
  | [] => []
  | Thread ssl_sock addr :: evs' => (ssl_sock, addr) :: threads evs'
  | _ :: evs' => threads evs'
  end.

Fixpoint closed (evs : list event) : list socket :=
  match evs with
  | [] => []
  | Close s :: evs' => s :: closed evs'
  | _ :: evs' => closed evs'
  end.

(** The numbers of [accept] and of [wrap_socket] calls. *)
Definition accepts (evs : list event) : nat :=
  List.length
    (filter (fun ev => match ev with Accept _ => true | _ => false end) evs).

Definition handshakes (evs : list event) : nat :=
  List.length
    (filter (fun ev => match ev with WrapSocket _ _ => true | _ => false end)
       evs).

(** *** A scripted run of the listener

    The certificate loads, the listening socket is socket 3 and binds, and
    threads start.  The connections come from a list: the raw socket, the
    address, and how the handshake ends, with a TLS socket or with an
    exception.  When the list is exhausted, [accept] is interrupted. *)
Record connection : Type := {
  raw : socket;
  peer_addr : address;
  handshake : outcome socket
}.

Record scripted : Type := {
  arriving : list connection;
  shaking : option (outcome socket)
}.

Definition scripted_accept (_ : socket) (w : scripted)
  : result (socket * address) * scripted :=
  match arriving w with
  | [] => (Raising KeyboardInterrupt, w)
  | c :: rest =>
      (Returned (raw c, peer_addr c),
       {| arriving := rest; shaking := Some (handshake c) |})
  end.

Definition scripted_wrap (_ : ssl_context) (_ : socket) (w : scripted)
  : result socket * scripted :=
  match shaking w with
  | Some (Ok ssl_sock) =>
      (Returned ssl_sock, {| arriving := arriving w; shaking := None |})
  | Some (Raise e) =>
      (Raising (Exc e), {| arriving := arriving w; shaking := None |})
  | None => (Raising (Exc SSLError), w)
  end.

Definition scripted_env : Env := {|
  world := scripted;
  new_context := fun w => (Returned 1%nat, w);
  load_cert_chain := fun _ _ _ w => (Returned tt, w);
  new_socket := fun w => (Returned 3%nat, w);
  set_reuseaddr := fun _ w => (Returned tt, w);
  bind_socket := fun _ _ _ w => (Returned tt, w);
  listen_socket := fun _ _ w => (Returned tt, w);
  accept_socket := scripted_accept;
  wrap_socket := scripted_wrap;
  close_socket := fun _ w => (Returned tt, w);
  start_thread := fun _ _ w => (Returned tt, w)
|}.

(** The same surroundings with a certificate file that cannot be read:
    [load_cert_chain] raises. *)
Definition no_certificate_env : Env := {|
  world := scripted;
  new_context := fun w => (Returned 1%nat, w);
  load_cert_chain := fun _ _ _ w => (Raising (Exc OSError), w);
  new_socket := fun w => (Returned 3%nat, w);
  set_reuseaddr := fun _ w => (Returned tt, w);
  bind_socket := fun _ _ _ w => (Returned tt, w);
  listen_socket := fun _ _ w => (Returned tt, w);
  accept_socket := scripted_accept;
  wrap_socket := scripted_wrap;
  close_socket := fun _ w => (Returned tt, w);
  start_thread := fun _ _ w => (Returned tt, w)
|}.

Definition scripted_start (connections : list connection)
  : state scripted_env :=
  {| st_world := ({| arriving := connections; shaking := None |}
                  : world scripted_env);
     st_trace := [] |}.

(** The connections whose handshake ends with a TLS socket, and the raw
    sockets of the others. *)
Fixpoint handed_over (connections : list connection)
  : list (socket * address) :=
  match connections with
  | [] => []
  | c :: rest =>
      match handshake c with
      | Ok ssl_sock => (ssl_sock, peer_addr c) :: handed_over rest
      | Raise _ => handed_over rest
      end
  end.

Fixpoint turned_away (connections : list connection) : list socket :=
  match connections with
  | [] => []
  | c :: rest =>
      match handshake c with
      | Ok _ => turned_away rest
      | Raise _ => raw c :: turned_away rest
      end
  end.

(** Three connections: the handshake of the second one fails. *)
Definition three_connections : list connection :=
  [ {| raw := 4%nat; peer_addr := Examples.client; handshake := Ok 5%nat |};
    {| raw := 6%nat; peer_addr := ("127.0.0.1"%string, 12346);
       handshake := Raise SSLError |};
    {| raw := 7%nat; peer_addr := ("127.0.0.1"%string, 12347);
       handshake := Ok 8%nat |} ].

End Listener.

(** *** Facts on the conversions *)

Lemma Z_of_byte_range (b : byte) : 0 <= Z_of_byte b < 256.
Proof.
  unfold Z_of_byte. pose proof (Byte.to_N_bounded b). lia.
Qed.

Lemma Z_of_byte_of_Z (z : Z) : Z_of_byte (byte_of_Z z) = z mod 256.
Proof.
  unfold Z_of_byte, byte_of_Z.
  assert (Hr : 0 <= z mod 256 < 256) by (apply Z.mod_pos_bound; lia).
  destruct (Byte.of_N (Z.to_N (z mod 256))) as [b|] eqn:E.
  - apply Byte.to_of_N in E. rewrite E. lia.
  - apply Byte.of_N_None_iff in E. lia.
Qed.

Lemma fold_digits_acc (b : bytes) (acc : Z) :
  fold_left (fun acc b => acc * 256 + Z_of_byte b) b acc
  = acc * 256 ^ len b + int_from_bytes b.
Proof.
  unfold int_from_bytes, len.
  revert acc. induction b as [|x b IH]; intro acc.
  - simpl. lia.
  - cbn [fold_left List.length]. rewrite IH, (IH (0 * 256 + Z_of_byte x)).
    replace (Z.of_nat (S (List.length b))) with (1 + Z.of_nat (List.length b))
      by lia.
    rewrite Z.pow_add_r by lia. lia.
Qed.

Lemma int_from_bytes_app (a b : bytes) :
  int_from_bytes (a ++ b)
  = int_from_bytes a * 256 ^ len b + int_from_bytes b.
Proof.
  unfold int_from_bytes at 1. rewrite fold_left_app.
  apply fold_digits_acc.
Qed.

Lemma big_endian_length (k : nat) (n : Z) :
  List.length (big_endian k n) = k.
Proof.
  revert n. induction k as [|k IH]; intro n; simpl.
  - reflexivity.
  - rewrite length_app, IH. simpl. lia.
Qed.

Lemma int_from_big_endian (k : nat) (n : Z) :
  int_from_bytes (big_endian k n) = n mod 256 ^ Z.of_nat k.
Proof.
  revert n. induction k as [|k IH]; intro n.
  - simpl. rewrite Z.mod_1_r. reflexivity.
  - cbn [big_endian]. rewrite int_from_bytes_app, IH.
    unfold len. cbn [List.length].
    replace (int_from_bytes [byte_of_Z n]) with (n mod 256)
      by (unfold int_from_bytes; simpl; rewrite Z_of_byte_of_Z; lia).
    replace (Z.of_nat (S k)) with (1 + Z.of_nat k) by lia.
    rewrite Z.pow_add_r by lia.
    change (256 ^ Z.of_nat 1) with 256. change (256 ^ 1) with 256.
    assert (Hp : 0 < 256 ^ Z.of_nat k) by (apply Z.pow_pos_nonneg; lia).
    rewrite Z.rem_mul_r by lia.
    lia.
Qed.

(** A value that fits in 16 bits is encoded on two bytes, and decoded back. *)
Lemma int_to_bytes_two (n : Z) :
  0 <= n <= 65535 ->
  exists prefix : bytes,
    int_to_bytes n 2 = Ok prefix /\
    List.length prefix = 2%nat /\
    int_from_bytes prefix = n.
Proof.
  intro Hn. exists (big_endian 2 n).
  unfold int_to_bytes.
  change (256 ^ Z.of_nat 2) with 65536.
  replace (0 <=? n) with true by (symmetry; apply Z.leb_le; lia).
  replace (n <? 65536) with true by (symmetry; apply Z.ltb_lt; lia).
  split; [reflexivity | split].
  - apply big_endian_length.
  - rewrite int_from_big_endian.
    change (256 ^ Z.of_nat 2) with 65536.
    apply Z.mod_small. lia.
Qed.

(** C5. Length-prefix round trip: every integer in [0, 65535] has a 2-byte
    big-endian encoding ([int.to_bytes(2, "big")] does not raise), the
    encoding is two bytes long, and [int.from_bytes(_, "big")] of it is the
    integer again. *)
Theorem length_prefix_roundtrip (n : Z) :
  0 <= n <= 65535 ->
  exists prefix : bytes,
    int_to_bytes n 2 = Ok prefix /\
    List.length prefix = 2%nat /\
    int_from_bytes prefix = n.
Proof.
  exact (int_to_bytes_two n).
Qed.

Lemma length_prefix_roundtrip_witness :
  0 <= 16 <= 65535 /\
  exists prefix : bytes,
    int_to_bytes 16 2 = Ok prefix /\
    List.length prefix = 2%nat /\
    int_from_bytes prefix = 16.
Proof.
  split; [lia | apply (length_prefix_roundtrip 16); lia].
Defined.

(** ** Relations kept by the server's statements

    A relation between the state before and the state after, reflexive and
    transitive, that every primitive call keeps is kept by every function of
    the server. *)
Section Kept.

Variable C : Codec.
Variable E : Env C.
Variable self : DNSOverTLSServer.

Variable R : state C E -> state C E -> Prop.
Hypothesis R_refl : forall st, R st st.
Hypothesis R_trans : forall a b c, R a b -> R b c -> R a c.

Lemma keeps_ret {A : Type} (a : A) : keeps C E R (ret C E a).
Proof. intros st r st' H. inversion H. apply R_refl. Qed.

Lemma keeps_eval {A : Type} (r : outcome A) : keeps C E R (eval C E r).
Proof. intros st r' st' H. inversion H. apply R_refl. Qed.

Lemma keeps_bind {A B : Type} (m : M C E A) (k : A -> M C E B) :
  keeps C E R m -> (forall a, keeps C E R (k a)) -> keeps C E R (bind C E m k).
Proof.
  intros Hm Hk st r st' H. unfold bind in H.
  destruct (m st) as [[a|e] st1] eqn:Em.
  - eapply R_trans; [eapply Hm; eassumption | eapply Hk; eassumption].
  - inversion H; subst. eapply Hm; eassumption.
Qed.

Lemma keeps_try_except {A : Type} (body : M C E A) (handler : exn -> M C E A) :
  keeps C E R body -> (forall e, keeps C E R (handler e)) ->
  keeps C E R (try_except C E body handler).
Proof.
  intros Hb Hh st r st' H. unfold try_except in H.
  destruct (body st) as [[a|e] st1] eqn:Eb.
  - inversion H; subst. eapply Hb; eassumption.
  - eapply R_trans; [eapply Hb; eassumption | eapply Hh; eassumption].
Qed.

Lemma keeps_try_finally {A : Type} (body : M C E A) (final : M C E unit) :
  keeps C E R body -> keeps C E R final ->
  keeps C E R (try_finally C E body final).
Proof.
  intros Hb Hf st r st' H. unfold try_finally in H.
  destruct (body st) as [rb st1] eqn:Eb.
  destruct (final st1) as [[u|e] st2] eqn:Ef;
    inversion H; subst;
    (eapply R_trans; [eapply Hb; eassumption | eapply Hf; eassumption]).
Qed.

Hypothesis keeps_log : forall lvl m, keeps C E R (log C E lvl m).
Hypothesis keeps_udp :
  forall q where_ timeout, keeps C E R (udp C E q where_ timeout).

Lemma keeps_logged (lvl : level) (m : log_msg C) (st : state C E) :
  R st (snd (log C E lvl m st)).
Proof. eapply keeps_log. apply surjective_pairing. Qed.

Ltac keeps_step :=
  lazymatch goal with
  | |- forall _, _ => intro; cbv beta zeta
  | |- keeps C E R (try_except _ _ _ _) => apply keeps_try_except
  | |- keeps C E R (bind _ _ _ _) => apply keeps_bind
  | |- keeps C E R (eval _ _ _) => apply keeps_eval
  | |- keeps C E R (ret _ _ _) => apply keeps_ret
  | |- keeps C E R (log _ _ _ _) => apply keeps_log
  | |- keeps C E R (udp _ _ _ _ _) => apply keeps_udp
  end.

Lemma keeps_create_error_response (query_data : bytes) :
  keeps C E R (create_error_response C E query_data).
Proof.
  unfold create_error_response, servfail_for.
  repeat keeps_step.
Qed.

Lemma keeps_forward_dns_query (query_data : bytes) :
  keeps C E R (forward_dns_query C E self query_data).
Proof.
  unfold forward_dns_query, forward_upstream.
  repeat keeps_step.
  apply keeps_create_error_response.
Qed.

Hypothesis keeps_recv : forall s n, keeps C E R (recv C E s n).
Hypothesis keeps_send : forall s data, keeps C E R (send C E s data).

Lemma keeps_recv_payload (fuel : nat) (s : socket) (query_length : Z) :
  forall query_data st r st',
    recv_payload C E fuel s query_length query_data st = Some (r, st') ->
    R st st'.
Proof.
  induction fuel as [|fuel IH]; intros query_data st r st' H; simpl in H;
    destruct (len query_data <? query_length);
    try discriminate; try (inversion H; subst; apply R_refl).
  destruct (recv C E s (query_length - len query_data) st)
    as [[chunk|e] st1] eqn:Er.
  - apply keeps_recv in Er.
    destruct (is_empty chunk).
    + inversion H; subst. exact Er.
    + eapply R_trans; [exact Er | eapply IH; eassumption].
  - apply keeps_recv in Er. inversion H; subst. exact Er.
Qed.

Lemma keeps_handle_loop (fuel : nat) (s : socket) (addr : address) :
  forall query_count st exit query_count' st',
    handle_loop C E self fuel s addr query_count st
    = Some (exit, query_count', st') ->
    R st st'.
Proof.
  induction fuel as [|fuel IH]; intros qc st exit qc' st' H;
    cbn [handle_loop] in H; [discriminate|].
  destruct (recv C E s 2 st) as [[length_data|e] st1] eqn:Er;
    apply keeps_recv in Er; [|inversion H; subst; exact Er].
  destruct (is_empty length_data); [inversion H; subst; exact Er|].
  destruct (len length_data <? 2).
  { inversion H; subst. eapply R_trans; [exact Er|].
    apply keeps_logged. }
  match type of H with
  | context [recv_payload C E ?k s ?L [] ?st2] =>
      destruct (recv_payload C E k s L [] st2) as [[[qd|e] st3]|] eqn:Ep;
      [ | | discriminate ];
      apply keeps_recv_payload in Ep;
      assert (R1 : R st st3)
        by (eapply R_trans; [exact Er|];
            eapply R_trans; [|exact Ep];
            apply keeps_logged)
  end; [|inversion H; subst; exact R1].
  destruct (negb (len qd =? int_from_bytes length_data)).
  { inversion H; subst. eapply R_trans; [exact R1|].
    apply keeps_logged. }
  destruct (forward_dns_query C E self qd st3) as [[resp|e] st4] eqn:Ef;
    apply keeps_forward_dns_query in Ef;
    [|inversion H; subst; eapply R_trans; eassumption].
  destruct (int_to_bytes (len resp) 2) as [prefix|e];
    [|inversion H; subst; eapply R_trans; eassumption].
  destruct (send C E s (prefix ++ resp) st4) as [[n|e] st5] eqn:Es;
    apply keeps_send in Es;
    [|inversion H; subst; eapply R_trans; [|exact Es];
      eapply R_trans; eassumption].
  apply IH in H.
  eapply R_trans; [exact R1|]. eapply R_trans; [exact Ef|].
  eapply R_trans; [exact Es|]. eapply R_trans; [|exact H].
  apply keeps_logged.
Qed.

End Kept.

(** ** Traces only grow *)
Section Growth.

Variable C : Codec.
Variable E : Env C.
Variable self : DNSOverTLSServer.
Variable P : event C -> bool.

Lemma grows_by_refl (st : state C E) : grows_by P st st.
Proof. exists []. rewrite app_nil_r. split; reflexivity. Qed.

Lemma grows_by_trans (a b c : state C E) :
  grows_by P a b -> grows_by P b c -> grows_by P a c.
Proof.
  intros [e1 [H1 F1]] [e2 [H2 F2]]. exists (e1 ++ e2). split.
  - rewrite H2, H1, app_assoc. reflexivity.
  - rewrite forallb_app, F1, F2. reflexivity.
Qed.

Lemma grows_by_record (ev : event C) (w : world C E) (st : state C E) :
  P ev = true -> grows_by P st (record ev w st).
Proof.
  intro H. exists [ev]. split; [reflexivity|]. simpl. rewrite H. reflexivity.
Qed.

Hypothesis P_log : forall lvl m, P (EvLog lvl m) = true.

Lemma log_grows (lvl : level) (m : log_msg C) :
  keeps C E (grows_by P) (log C E lvl m).
Proof.
  intros st r st' H. inversion H; subst. apply grows_by_record, P_log.
Qed.

Lemma create_error_response_grows (query_data : bytes) :
  keeps C E (grows_by P) (create_error_response C E query_data).
Proof.
  exact (keeps_create_error_response C E (grows_by P)
           grows_by_refl grows_by_trans log_grows query_data).
Qed.

Hypothesis P_udp : forall q where_ timeout, P (EvUdp q where_ timeout) = true.

Lemma udp_grows (q : message C) (where_ : string) (timeout : Z) :
  keeps C E (grows_by P) (udp C E q where_ timeout).
Proof.
  intros st r st' H. unfold udp in H.
  destruct (query_udp C E q where_ timeout (st_world st)) as [r1 w1].
  inversion H; subst. apply grows_by_record, P_udp.
Qed.

Lemma forward_dns_query_grows (query_data : bytes) :
  keeps C E (grows_by P) (forward_dns_query C E self query_data).
Proof.
  exact (keeps_forward_dns_query C E self (grows_by P)
           grows_by_refl grows_by_trans log_grows udp_grows query_data).
Qed.

Hypothesis P_recv : forall s n, P (EvRecv s n) = true.

Lemma recv_grows (s : socket) (n : Z) :
  keeps C E (grows_by P) (recv C E s n).
Proof.
  intros st r st' H. unfold recv in H.
  destruct (sock_recv C E s n (st_world st)) as [r1 w1].
  inversion H; subst. apply grows_by_record, P_recv.
Qed.

Lemma recv_payload_grows (fuel : nat) (s : socket) (query_length : Z)
    (query_data : bytes) (st : state C E) r st' :
  recv_payload C E fuel s query_length query_data st = Some (r, st') ->
  grows_by P st st'.
Proof.
  exact (keeps_recv_payload C E (grows_by P)
           grows_by_refl grows_by_trans recv_grows fuel s query_length
           query_data st r st').
Qed.

Hypothesis P_send : forall s data, P (EvSend s data) = true.

Lemma send_grows (s : socket) (data : bytes) :
  keeps C E (grows_by P) (send C E s data).
Proof.
  intros st r st' H. unfold send in H.
  destruct (sock_send C E s data (st_world st)) as [r1 w1].
  inversion H; subst. apply grows_by_record, P_send.
Qed.

Lemma handle_loop_grows (fuel : nat) (s : socket) (addr : address)
    (query_count : Z) (st : state C E) exit query_count' st' :
  handle_loop C E self fuel s addr query_count st
  = Some (exit, query_count', st') ->
  grows_by P st st'.
Proof.
  exact (keeps_handle_loop C E self (grows_by P)
           grows_by_refl grows_by_trans log_grows udp_grows
           recv_grows send_grows fuel s addr
           query_count st exit query_count' st').
Qed.

End Growth.

(** ** The forwarder and the error responder *)
Section Forwarder.

Variable C : Codec.
Variable E : Env C.
Variable self : DNSOverTLSServer.

Lemma create_error_response_returns (query_data : bytes) (st : state C E) :
  exists response st',
    create_error_response C E query_data st = (Ok response, st').
Proof.
  unfold create_error_response, try_except, servfail_for, bind, eval, log, ret.
  destruct (from_wire C query_data) as [query|e]; [|eauto].
  destruct (make_response C query) as [response|e]; [|eauto].
  destruct (to_wire C (set_rcode C response SERVFAIL)) as [data|e]; eauto.
Qed.

Lemma create_error_response_undecodable (query_data : bytes) (st : state C E)
    (e : exn) :
  from_wire C query_data = Raise e ->
  create_error_response C E query_data st
  = (Ok [], snd (log C E ERROR (FailedErrorResponse e) st)).
Proof.
  intro H.
  unfold create_error_response, try_except, servfail_for, bind, eval, ret.
  rewrite H. reflexivity.
Qed.

Lemma forward_dns_query_undecodable (query_data : bytes) (st : state C E)
    (e : exn) :
  from_wire C query_data = Raise e ->
  forward_dns_query C E self query_data st
  = create_error_response C E query_data
      {| st_world := st_world st;
         st_trace := st_trace st ++ [EvLog WARNING (ErrorForwarding e)] |}.
Proof.
  intro H.
  unfold forward_dns_query, try_except, forward_upstream, bind, eval.
  rewrite H. reflexivity.
Qed.

(** C1. [forward_dns_query] returns bytes on every input and in every
    state, and never raises.  When [dns.message.from_wire] rejects the query,
    and when the one [dns.query.udp] call (timeout 5) raises, whatever the
    exception, the result is that of [create_error_response] on the original
    query bytes, called after the warning is logged. *)
Theorem forward_dns_query_never_raises (query_data : bytes) (st : state C E) :
  (exists response st',
      forward_dns_query C E self query_data st = (Ok response, st'))
  /\ (forall e,
         from_wire C query_data = Raise e ->
         forward_dns_query C E self query_data st
         = create_error_response C E query_data
             {| st_world := st_world st;
                st_trace := st_trace st
                            ++ [EvLog WARNING (ErrorForwarding e)] |})
  /\ (forall query e w1,
         from_wire C query_data = Ok query ->
         query_udp C E query (upstream_dns self) 5 (st_world st)
         = (Raise e, w1) ->
         forward_dns_query C E self query_data st
         = create_error_response C E query_data
             {| st_world := w1;
                st_trace :=
                  st_trace st
                  ++ [EvLog DEBUG (ForwardingQuery (first_question C query)
                                                   (upstream_dns self));
                      EvUdp query (upstream_dns self) 5;
                      EvLog WARNING (ErrorForwarding e)] |}).
Proof.
  split; [|split].
  - unfold forward_dns_query, try_except.
    destruct (forward_upstream C E self query_data st) as [[data|e] st1].
    + eauto.
    + unfold bind, log. apply create_error_response_returns.
  - intros e H. apply forward_dns_query_undecodable. exact H.
  - intros query e w1 Hq Hu.
    unfold forward_dns_query, try_except, forward_upstream, bind, eval,
      udp, log.
    rewrite Hq. cbn [st_world record]. rewrite Hu.
    unfold record. cbn [st_world st_trace].
    rewrite <- !app_assoc. reflexivity.
Qed.

(** C3, as the code has it.  [create_error_response] decodes with
    [dns.message.from_wire], the decoder of the forwarder.  On bytes it
    decodes to a query from which a response can be made and serialized, the
    result is that non-empty serialization, of a message that carries the
    identifier and the question section of the query and the result code
    SERVFAIL.  On bytes it rejects, the result is empty. *)
Theorem create_error_response_servfail (L : CodecLaws C)
    (query_data : bytes) (st : state C E) :
  (forall query response data,
      from_wire C query_data = Ok query ->
      make_response C query = Ok response ->
      to_wire C (set_rcode C response SERVFAIL) = Ok data ->
      fst (create_error_response C E query_data st) = Ok data /\
      data <> [] /\
      msg_id C (set_rcode C response SERVFAIL) = msg_id C query /\
      msg_question C (set_rcode C response SERVFAIL) = msg_question C query /\
      msg_rcode C (set_rcode C response SERVFAIL) = SERVFAIL)
  /\ (forall e,
         from_wire C query_data = Raise e ->
         fst (create_error_response C E query_data st) = Ok []).
Proof.
  split.
  - intros query response data Hq Hr Hw.
    split; [|split; [|split; [|split]]].
    + unfold create_error_response, try_except, servfail_for, bind, eval, log.
      rewrite Hq, Hr, Hw. reflexivity.
    + apply (to_wire_header C L) in Hw. intro Hd. subst data.
      unfold len in Hw. simpl in Hw. lia.
    + rewrite (set_rcode_id C L). apply (make_response_id C L). exact Hr.
    + rewrite (set_rcode_question C L).
      apply (make_response_question C L). exact Hr.
    + apply (set_rcode_rcode C L). unfold SERVFAIL. lia.
  - intros e H. rewrite (create_error_response_undecodable _ _ e H).
    reflexivity.
Qed.

Lemma create_error_response_max_size (L : CodecLaws C)
    (query_data : bytes) (st : state C E) response st' :
  create_error_response C E query_data st = (Ok response, st') ->
  len response <= 65535.
Proof.
  unfold create_error_response, try_except, servfail_for, bind, eval, log, ret.
  destruct (from_wire C query_data) as [query|e];
    [|intro H; inversion H; unfold len; simpl; lia].
  destruct (make_response C query) as [r|e];
    [|intro H; inversion H; unfold len; simpl; lia].
  destruct (to_wire C (set_rcode C r SERVFAIL)) as [data|e] eqn:Ew;
    intro H; inversion H; subst.
  - apply (to_wire_max_size C L) in Ew. exact Ew.
  - unfold len. simpl. lia.
Qed.

Lemma forward_dns_query_max_size (L : CodecLaws C)
    (query_data : bytes) (st : state C E) response st' :
  forward_dns_query C E self query_data st = (Ok response, st') ->
  len response <= 65535.
Proof.
  unfold forward_dns_query, try_except.
  destruct (forward_upstream C E self query_data st) as [[data|e] st1] eqn:Ef.
  - intro H. inversion H; subst.
    unfold forward_upstream, bind, eval, udp, log in Ef.
    destruct (from_wire C query_data) as [query|e]; [|discriminate].
    cbn [st_world record] in Ef.
    destruct (query_udp C E query (upstream_dns self) 5 (st_world st))
      as [[r|e] w1]; [|discriminate].
    destruct (to_wire C r) as [b|e] eqn:Ew; [|discriminate].
    inversion Ef; subst. apply (to_wire_max_size C L) in Ew. exact Ew.
  - unfold bind, log. apply create_error_response_max_size. exact L.
Qed.

End Forwarder.

(** ** The connection handler *)
Section Handler.

Variable C : Codec.
Variable E : Env C.
Variable self : DNSOverTLSServer.

Lemma not_empty_of_len {A : Type} (l : list A) :
  0 < len l -> is_empty l = false.
Proof. destruct l; unfold len; simpl; [lia | reflexivity]. Qed.

Lemma send_trace (s : socket) (data : bytes) (st : state C E) :
  st_trace (snd (send C E s data st)) = st_trace st ++ [EvSend s data].
Proof.
  unfold send. destruct (sock_send C E s data (st_world st)). reflexivity.
Qed.

(** The payload loop never runs out of the fuel [handle_loop] gives it. *)
Lemma recv_payload_fuel (fuel : nat) (s : socket) (query_length : Z) :
  forall query_data (st : state C E),
    query_length - len query_data <= Z.of_nat fuel ->
    recv_payload C E fuel s query_length query_data st <> None.
Proof.
  induction fuel as [|fuel IH]; intros query_data st Hf; simpl.
  - destruct (len query_data <? query_length) eqn:El; [|discriminate].
    apply Z.ltb_lt in El. lia.
  - destruct (len query_data <? query_length) eqn:El; [|discriminate].
    destruct (recv C E s (query_length - len query_data) st)
      as [[chunk|e] st1]; [|discriminate].
    destruct chunk as [|b chunk]; [discriminate|]. cbn [is_empty].
    apply IH. unfold len in *. rewrite length_app. simpl. lia.
Qed.

(** The rest of a turn of the loop once a frame is read. *)
Lemma handle_loop_frame (fuel : nat) (s : socket) (addr : address)
    (query_count : Z) (st : state C E) query_data st3 :
  reads_frame C E s addr st query_data st3 ->
  handle_loop C E self (S fuel) s addr query_count st
  = match forward_dns_query C E self query_data st3 with
    | (Raise e, st4) => Some (Raised e, query_count + 1, st4)
    | (Ok response_data, st4) =>
        match int_to_bytes (len response_data) 2 with
        | Raise e => Some (Raised e, query_count + 1, st4)
        | Ok response_length =>
            match send C E s (response_length ++ response_data) st4 with
            | (Raise e, st5) => Some (Raised e, query_count + 1, st5)
            | (Ok _, st5) =>
                handle_loop C E self fuel s addr (query_count + 1)
                  (snd (log C E DEBUG
                          (SentResponse (len response_data) addr) st5))
            end
        end
    end.
Proof.
  intros (length_data & w1 & Hr & Hl & Hp & Hq).
  cbn [handle_loop]. unfold recv at 1. rewrite Hr.
  assert (Hne : 0 < len length_data) by lia.
  rewrite (not_empty_of_len length_data Hne).
  replace (len length_data <? 2) with false by (symmetry; apply Z.ltb_ge; lia).
  rewrite Hp.
  replace (len query_data =? int_from_bytes length_data) with true
    by (symmetry; apply Z.eqb_eq; exact Hq).
  reflexivity.
Qed.

Lemma reads_frame_grows (P : event C -> bool) (s : socket) (addr : address)
    (st : state C E) query_data st3 :
  (forall lvl m, P (EvLog lvl m) = true) ->
  (forall s' n, P (EvRecv s' n) = true) ->
  reads_frame C E s addr st query_data st3 ->
  grows_by P st st3.
Proof.
  intros Pl Pr (length_data & w1 & Hr & Hl & Hp & Hq).
  apply (recv_payload_grows C E P Pr) in Hp.
  eapply grows_by_trans; [|exact Hp].
  eapply grows_by_trans; [apply grows_by_record, (Pr s 2)|].
  apply grows_by_record, Pl.
Qed.

(** C7. With the codec of the laws above: for every response the
    forwarder returns for a frame, [len(response).to_bytes(2, "big")] is a
    2-byte prefix whose value is the length of the response, and the next
    call on the socket is one [send], on the socket the frame was read from,
    of the prefix followed at once by the response bytes. *)
Theorem response_is_framed (L : CodecLaws C) (fuel : nat) (s : socket)
    (addr : address) (query_count : Z) (st : state C E)
    query_data st3 response_data st4 :
  reads_frame C E s addr st query_data st3 ->
  forward_dns_query C E self query_data st3 = (Ok response_data, st4) ->
  exists response_length,
    int_to_bytes (len response_data) 2 = Ok response_length /\
    List.length response_length = 2%nat /\
    int_from_bytes response_length = len response_data /\
    st_trace (snd (send C E s (response_length ++ response_data) st4))
    = st_trace st4 ++ [EvSend s (response_length ++ response_data)] /\
    handle_loop C E self (S fuel) s addr query_count st
    = match send C E s (response_length ++ response_data) st4 with
      | (Raise e, st5) => Some (Raised e, query_count + 1, st5)
      | (Ok _, st5) =>
          handle_loop C E self fuel s addr (query_count + 1)
            (snd (log C E DEBUG (SentResponse (len response_data) addr) st5))
      end.
Proof.
  intros Hf Hw.
  pose proof (forward_dns_query_max_size C E self L _ _ _ _ Hw) as Hl.
  destruct (int_to_bytes_two (len response_data))
    as (prefix & Hp & Hn & Hv); [unfold len in *; lia|].
  exists prefix. repeat (split; [assumption|]). split.
  - apply send_trace.
  - rewrite (handle_loop_frame fuel s addr query_count st _ _ Hf), Hw, Hp.
    reflexivity.
Qed.

(** C4. When the [try] suite of [create_error_response] raises, the
    function returns the empty byte sequence.  When the forwarder hands that
    empty result to the handler, the handler sends the two bytes 00 00 and
    nothing else on the socket of the frame; unless that [send] raises, the
    loop goes on to its next turn, which starts with the next [recv(2)]. *)
Theorem empty_error_response_is_framed (fuel : nat) (s : socket)
    (addr : address) (query_count : Z) (st : state C E) query_data st3 :
  (forall st0 e st1,
      servfail_for C E query_data st0 = (Raise e, st1) ->
      create_error_response C E query_data st0
      = (Ok [], snd (log C E ERROR (FailedErrorResponse e) st1)))
  /\ (forall e st1 e' st2,
         forward_upstream C E self query_data st3 = (Raise e, st1) ->
         servfail_for C E query_data
           (snd (log C E WARNING (ErrorForwarding e) st1)) = (Raise e', st2) ->
         forward_dns_query C E self query_data st3
         = (Ok [], snd (log C E ERROR (FailedErrorResponse e') st2)))
  /\ (forall st4,
         reads_frame C E s addr st query_data st3 ->
         forward_dns_query C E self query_data st3 = (Ok [], st4) ->
         st_trace (snd (send C E s [x00; x00] st4))
         = st_trace st4 ++ [EvSend s [x00; x00]] /\
         handle_loop C E self (S fuel) s addr query_count st
         = match send C E s [x00; x00] st4 with
           | (Raise e, st5) => Some (Raised e, query_count + 1, st5)
           | (Ok _, st5) =>
               handle_loop C E self fuel s addr (query_count + 1)
                 (snd (log C E DEBUG (SentResponse 0 addr) st5))
           end).
Proof.
  split; [|split].
  - intros st0 e st1 H.
    unfold create_error_response, try_except. rewrite H. reflexivity.
  - intros e st1 e' st2 Hf Hs.
    unfold forward_dns_query, try_except. rewrite Hf.
    unfold bind at 1.
    change (log C E WARNING (ErrorForwarding e) st1)
      with (Ok tt, snd (log C E WARNING (ErrorForwarding e) st1)).
    cbv iota beta.
    unfold create_error_response, try_except. rewrite Hs. reflexivity.
  - intros st4 Hf Hw. split; [apply send_trace|].
    rewrite (handle_loop_frame fuel s addr query_count st _ _ Hf), Hw.
    reflexivity.
Qed.

(** C8. When a frame is read and the forwarder returns more than 65535
    bytes, [len(response).to_bytes(2, "big")] raises OverflowError: the
    loop is left through the [except] clause of [handle_client], no [send]
    was called since the start of the turn, the error is logged and the
    socket is closed, once. *)
Theorem oversized_response_tears_down (fuel : nat) (s : socket)
    (addr : address) (query_count : Z) (st : state C E)
    query_data st3 response_data st4 :
  reads_frame C E s addr st query_data st3 ->
  forward_dns_query C E self query_data st3 = (Ok response_data, st4) ->
  65535 < len response_data ->
  int_to_bytes (len response_data) 2 = Raise OverflowError /\
  handle_loop C E self (S fuel) s addr query_count st
  = Some (Raised OverflowError, query_count + 1, st4) /\
  grows_by (fun ev => negb (is_send ev) && negb (is_close ev)) st st4 /\
  exists r st',
    serve C E self (S fuel) s addr query_count st = Some (r, st') /\
    st_trace st'
    = st_trace st4
      ++ EvLog ERROR (ErrorHandlingClient addr OverflowError)
      :: EvClose s
      :: match r with
         | Ok _ => [EvLog INFO (ConnectionClosed addr (query_count + 1))]
         | Raise _ => []
         end.
Proof.
  intros Hf Hw Hl.
  assert (Ho : int_to_bytes (len response_data) 2 = Raise OverflowError).
  { unfold int_to_bytes. change (256 ^ Z.of_nat 2) with 65536.
    replace (len response_data <? 65536) with false
      by (symmetry; apply Z.ltb_ge; lia).
    rewrite andb_false_r. reflexivity. }
  assert (Hloop : handle_loop C E self (S fuel) s addr query_count st
                  = Some (Raised OverflowError, query_count + 1, st4)).
  { rewrite (handle_loop_frame fuel s addr query_count st _ _ Hf), Hw, Ho.
    reflexivity. }
  split; [exact Ho|]. split; [exact Hloop|]. split.
  - eapply grows_by_trans.
    + eapply reads_frame_grows; [| |exact Hf]; reflexivity.
    + eapply (forward_dns_query_grows C E self); [| |exact Hw]; reflexivity.
  - unfold serve. rewrite Hloop.
    unfold teardown, try_finally, bind, close, log.
    cbn [st_world record].
    destruct (sock_close C E s (st_world st4)) as [[u|e] w5];
      eexists; eexists; (split; [reflexivity|]);
      unfold record; cbn [st_trace]; rewrite <- !app_assoc; reflexivity.
Qed.

(** C9. A frame that announces length 0 is accepted: the payload loop
    reads nothing, [forward_dns_query] is called on the empty byte sequence
    and, the codec rejecting empty input in the forwarder and again in
    [create_error_response], returns the empty byte sequence; the handler
    sends the two bytes 00 00 and, unless that [send] raises, goes on to the
    next turn of the loop. *)
Theorem zero_length_frame_is_answered (fuel : nat) (s : socket)
    (addr : address) (query_count : Z) (st : state C E) w1 e :
  sock_recv C E s 2 (st_world st) = (Ok [x00; x00], w1) ->
  from_wire C [] = Raise e ->
  let st2 := {| st_world := w1;
                st_trace := st_trace st
                            ++ [EvRecv s 2;
                                EvLog DEBUG (Expecting 0 addr)] |} in
  let st4 := {| st_world := w1;
                st_trace := st_trace st
                            ++ [EvRecv s 2;
                                EvLog DEBUG (Expecting 0 addr);
                                EvLog WARNING (ErrorForwarding e);
                                EvLog ERROR (FailedErrorResponse e)] |} in
  reads_frame C E s addr st [] st2 /\
  forward_dns_query C E self [] st2 = (Ok [], st4) /\
  handle_loop C E self (S fuel) s addr query_count st
  = match send C E s [x00; x00] st4 with
    | (Raise e', st5) => Some (Raised e', query_count + 1, st5)
    | (Ok _, st5) =>
        handle_loop C E self fuel s addr (query_count + 1)
          (snd (log C E DEBUG (SentResponse 0 addr) st5))
    end.
Proof.
  intros Hr He st2 st4.
  assert (Hf : reads_frame C E s addr st [] st2).
  { exists [x00; x00], w1. split; [exact Hr|]. split; [unfold len; simpl; lia|].
    split; [|reflexivity].
    change (int_from_bytes [x00; x00]) with 0.
    cbn [recv_payload Z.to_nat]. change (len (@nil byte) <? 0) with false.
    unfold st2, log, record. cbn [snd st_world st_trace].
    rewrite <- app_assoc. reflexivity. }
  assert (Hw : forward_dns_query C E self [] st2 = (Ok [], st4)).
  { rewrite (forward_dns_query_undecodable C E self [] st2 e He),
      (create_error_response_undecodable C E [] _ e He).
    unfold st2, st4, log, record. cbn [snd st_world st_trace].
    rewrite <- !app_assoc. reflexivity. }
  split; [exact Hf|]. split; [exact Hw|].
  rewrite (handle_loop_frame fuel s addr query_count st _ _ Hf), Hw.
  reflexivity.
Qed.

(** C6. Leaving the loop at the framing stage.  (1) [recv(2)] returns no
    byte: the loop is left by [break] with nothing logged.  (2) [recv(2)]
    returns some bytes but fewer than two: a warning is logged and the loop
    is left by [break].  (3) The payload loop ends with fewer bytes than
    announced: a warning is logged and the loop is left by [break]; (4) which
    is what happens when a [recv] of the payload loop returns no byte.  In
    the three cases the turn made [recv] calls and log calls only: the frame
    is not forwarded and nothing is sent. *)
Theorem framing_violations_end_the_loop (fuel : nat) (s : socket)
    (addr : address) (query_count : Z) (st : state C E) :
  (forall w1,
      sock_recv C E s 2 (st_world st) = (Ok [], w1) ->
      handle_loop C E self (S fuel) s addr query_count st
      = Some (Break, query_count,
              {| st_world := w1; st_trace := st_trace st ++ [EvRecv s 2] |}))
  /\ (forall length_data w1,
         sock_recv C E s 2 (st_world st) = (Ok length_data, w1) ->
         0 < len length_data < 2 ->
         handle_loop C E self (S fuel) s addr query_count st
         = Some (Break, query_count,
                 {| st_world := w1;
                    st_trace := st_trace st
                                ++ [EvRecv s 2;
                                    EvLog WARNING (IncompleteLength addr)] |}))
  /\ (forall length_data w1 query_data st3,
         sock_recv C E s 2 (st_world st) = (Ok length_data, w1) ->
         2 <= len length_data ->
         let query_length := int_from_bytes length_data in
         let st2 := {| st_world := w1;
                       st_trace := st_trace st
                                   ++ [EvRecv s 2;
                                       EvLog DEBUG
                                         (Expecting query_length addr)] |} in
         recv_payload C E (S (Z.to_nat query_length)) s query_length [] st2
         = Some (Ok query_data, st3) ->
         len query_data < query_length ->
         grows_by is_recv st2 st3 /\
         handle_loop C E self (S fuel) s addr query_count st
         = Some (Break, query_count,
                 {| st_world := st_world st3;
                    st_trace := st_trace st3
                                ++ [EvLog WARNING
                                      (IncompleteQuery addr query_length
                                         (len query_data))] |}))
  /\ (forall k query_length query_data (st1 : state C E) w2,
         len query_data < query_length ->
         sock_recv C E s (query_length - len query_data) (st_world st1)
         = (Ok [], w2) ->
         recv_payload C E (S k) s query_length query_data st1
         = Some (Ok query_data,
                 {| st_world := w2;
                    st_trace := st_trace st1
                                ++ [EvRecv s (query_length
                                              - len query_data)] |})).
Proof.
  split; [|split; [|split]].
  - intros w1 Hr. cbn [handle_loop]. unfold recv. rewrite Hr. reflexivity.
  - intros length_data w1 Hr Hl. cbn [handle_loop]. unfold recv. rewrite Hr.
    assert (Hne : 0 < len length_data) by lia.
    rewrite (not_empty_of_len length_data Hne).
    replace (len length_data <? 2) with true
      by (symmetry; apply Z.ltb_lt; lia).
    unfold log, record. cbn [snd st_world st_trace].
    rewrite <- app_assoc. reflexivity.
  - intros length_data w1 query_data st3 Hr Hl query_length st2 Hp Hq.
    split.
    + eapply (recv_payload_grows C E is_recv); [|exact Hp]. reflexivity.
    + cbn [handle_loop]. unfold recv at 1. rewrite Hr.
      assert (Hne : 0 < len length_data) by lia.
      rewrite (not_empty_of_len length_data Hne).
      replace (len length_data <? 2) with false
        by (symmetry; apply Z.ltb_ge; lia).
      fold query_length.
      replace (snd (log C E DEBUG (Expecting query_length addr)
                      (record (EvRecv s 2) w1 st))) with st2
        by (unfold st2, log, record; cbn [snd st_world st_trace];
            rewrite <- app_assoc; reflexivity).
      rewrite Hp.
      replace (len query_data =? query_length) with false
        by (symmetry; apply Z.eqb_neq; lia).
      reflexivity.
  - intros k query_length query_data st1 w2 Hl Hr.
    cbn [recv_payload].
    replace (len query_data <? query_length) with true
      by (symmetry; apply Z.ltb_lt; lia).
    unfold recv. rewrite Hr. reflexivity.
Qed.

(** C10. The length prefix is read by one [recv(2)] and never completed
    by a second read: when that call returns one byte, whatever the peer
    could still deliver, the only calls that follow are the warning, the
    [close()] of the socket and, when [close()] returns, the closing log. *)
Theorem short_length_read_closes (fuel : nat) (s : socket) (addr : address)
    (query_count : Z) (st : state C E) (b : byte) w1 r w2 :
  sock_recv C E s 2 (st_world st) = (Ok [b], w1) ->
  sock_close C E s w1 = (r, w2) ->
  serve C E self (S fuel) s addr query_count st
  = Some (r,
          {| st_world := w2;
             st_trace :=
               st_trace st
               ++ [EvRecv s 2; EvLog WARNING (IncompleteLength addr);
                   EvClose s]
               ++ match r with
                  | Ok _ => [EvLog INFO (ConnectionClosed addr query_count)]
                  | Raise _ => []
                  end |}).
Proof.
  intros Hr Hc.
  unfold serve. cbn [handle_loop]. unfold recv. rewrite Hr.
  cbn [is_empty]. change (len [b] <? 2) with true. cbv iota.
  unfold teardown, try_finally, ret, bind, close, log.
  cbn [snd st_world record]. rewrite Hc.
  destruct r as [[]|e]; unfold record; cbn [st_world st_trace];
    rewrite <- !app_assoc; reflexivity.
Qed.

Lemma closes_app (a b : list (event C)) :
  closes (a ++ b) = (closes a + closes b)%nat.
Proof. unfold closes. rewrite filter_app, length_app. reflexivity. Qed.

Lemma closes_none (l : list (event C)) :
  forallb (fun ev => negb (is_close ev)) l = true -> closes l = 0%nat.
Proof.
  unfold closes. induction l as [|ev l IH]; simpl; [reflexivity|].
  intro H. apply andb_prop in H. destruct H as [H1 H2].
  destruct (is_close ev); [discriminate|]. apply IH, H2.
Qed.

Lemma closes_logs (l : list (event C)) :
  forallb is_log l = true -> closes l = 0%nat.
Proof.
  intro H. apply closes_none.
  rewrite forallb_forall in *. intros ev Hin. specialize (H ev Hin).
  destruct ev; simpl in *; congruence.
Qed.

(** C2. In every run of [handle_client] that ends, by return or by an
    exception of [close()] itself, the trace gained exactly one [close()]
    call, on the socket of the connection; no socket or network call comes
    after it, only the closing log.  This covers every way out of the loop:
    [break] on end of stream, [break] on a framing violation, and any
    exception of [recv], the forwarder, the length encoding or [send]. *)
Theorem handle_client_closes_once (fuel : nat) (s : socket) (addr : address)
    (st : state C E) r st' :
  handle_client C E self fuel s addr st = Some (r, st') ->
  exists before after,
    st_trace st' = st_trace st ++ before ++ EvClose s :: after /\
    forallb (fun ev => negb (is_close ev)) before = true /\
    forallb is_log after = true /\
    closes (before ++ EvClose s :: after) = 1%nat.
Proof.
  unfold handle_client, serve. intro H.
  destruct (handle_loop C E self fuel s addr 0
              (snd (log C E INFO (NewConnection addr) st)))
    as [[[exit qc] st1]|] eqn:El; [|discriminate].
  apply (handle_loop_grows C E self (fun ev => negb (is_close ev))) in El;
    try reflexivity.
  destruct El as (evs & Ht & Hn).
  unfold log, record in Ht. cbn [snd st_trace] in Ht.
  assert (Hd : forall before after : list (event C),
             forallb (fun ev => negb (is_close ev)) before = true ->
             forallb is_log after = true ->
             closes (before ++ EvClose s :: after) = 1%nat).
  { intros before after Hb Ha.
    rewrite closes_app, (closes_none _ Hb).
    change (EvClose s :: after) with ([EvClose s] ++ after).
    rewrite closes_app, (closes_logs _ Ha). reflexivity. }
  inversion H as [Hrun]; clear H.
  unfold teardown, try_finally, ret, bind, close, log in Hrun.
  destruct exit as [|e]; cbn [st_world record] in Hrun;
    destruct (sock_close C E s (st_world st1)) as [[u|e'] w2];
    inversion Hrun; subst; unfold record; cbn [st_trace]; rewrite Ht.
  - exists (EvLog INFO (NewConnection addr) :: evs),
           [EvLog INFO (ConnectionClosed addr qc)].
    split; [rewrite <- !app_assoc; reflexivity|].
    split; [exact Hn|]. split; [reflexivity|]. apply Hd; [exact Hn|reflexivity].
  - exists (EvLog INFO (NewConnection addr) :: evs), [].
    split; [rewrite <- !app_assoc; reflexivity|].
    split; [exact Hn|]. split; [reflexivity|]. apply Hd; [exact Hn|reflexivity].
  - assert (Hn' : forallb (fun ev => negb (is_close ev))
                    (EvLog INFO (NewConnection addr)
                     :: evs ++ [EvLog ERROR (ErrorHandlingClient addr e)])
                  = true).
    { cbn [forallb is_close negb andb]. rewrite forallb_app, Hn. reflexivity. }
    exists (EvLog INFO (NewConnection addr)
            :: evs ++ [EvLog ERROR (ErrorHandlingClient addr e)]),
           [EvLog INFO (ConnectionClosed addr qc)].
    split; [simpl; rewrite <- !app_assoc; reflexivity|].
    split; [exact Hn'|]. split; [reflexivity|].
    apply Hd; [exact Hn'|reflexivity].
  - assert (Hn' : forallb (fun ev => negb (is_close ev))
                    (EvLog INFO (NewConnection addr)
                     :: evs ++ [EvLog ERROR (ErrorHandlingClient addr e)])
                  = true).
    { cbn [forallb is_close negb andb]. rewrite forallb_app, Hn. reflexivity. }
    exists (EvLog INFO (NewConnection addr)
            :: evs ++ [EvLog ERROR (ErrorHandlingClient addr e)]), [].
    split; [simpl; rewrite <- !app_assoc; reflexivity|].
    split; [exact Hn'|]. split; [reflexivity|].
    apply Hd; [exact Hn'|reflexivity].
Qed.

End Handler.

(** ** The reference codec keeps the laws *)

Lemma Wire_set_rcode_rcode (m : Wire.Message) (rc : Z) :
  0 <= rc < 16 -> Wire.rcode (Wire.set_rcode m rc) = rc.
Proof.
  intro H. unfold Wire.rcode, Wire.set_rcode. cbn [Wire.flags].
  rewrite Z.land_lor_distr_l, <- Z.land_assoc.
  change (Z.land 65520 15) with 0. rewrite Z.land_0_r, Z.lor_0_l.
  change 15 with (Z.ones 4). rewrite Z.land_ones by lia.
  apply Z.mod_small. simpl. lia.
Qed.

Lemma Wire_to_wire_header (m : Wire.Message) (b : bytes) :
  Wire.to_wire m = Ok b -> 12 <= len b.
Proof.
  unfold Wire.to_wire.
  match goal with |- context [len ?out <=? _] => set (o := out) end.
  destruct (len o <=? Wire.MAX_SIZE); [|discriminate].
  intro H. inversion H; subst b. unfold o, Wire.put_header, len.
  rewrite !length_app, !big_endian_length. lia.
Qed.

Lemma Wire_to_wire_max_size (m : Wire.Message) (b : bytes) :
  Wire.to_wire m = Ok b -> len b <= 65535.
Proof.
  unfold Wire.to_wire.
  match goal with |- context [len ?out <=? _] => set (o := out) end.
  destruct (len o <=? Wire.MAX_SIZE) eqn:El; [|discriminate].
  intro H. inversion H; subst b. apply Z.leb_le in El. exact El.
Qed.

Lemma Wire_laws : CodecLaws Wire.codec.
Proof.
  split; cbn [make_response msg_id msg_question set_rcode msg_rcode to_wire
              Wire.codec].
  - intros q r. unfold Wire.make_response.
    destruct (Z.land (Wire.flags q) Wire.QR =? 0); [|discriminate].
    intro H. inversion H. reflexivity.
  - intros q r. unfold Wire.make_response.
    destruct (Z.land (Wire.flags q) Wire.QR =? 0); [|discriminate].
    intro H. inversion H. reflexivity.
  - apply Wire_set_rcode_rcode.
  - reflexivity.
  - reflexivity.
  - apply Wire_to_wire_header.
  - apply Wire_to_wire_max_size.
Qed.

(** ** Against a scripted peer the handler always ends

    Every [recv] takes an entry of the script away and an exhausted script
    raises, so one unit of fuel more than the script has entries is enough. *)
Section ScriptedRuns.

Variable C : Codec.
Variable self : DNSOverTLSServer.

Local Abbreviation E := (Scripted.env C) (only parsing).

Lemma no_more_pending_refl (st : state C E) :
  Scripted.no_more_pending C st st.
Proof. unfold Scripted.no_more_pending. lia. Qed.

Lemma no_more_pending_trans (a b c : state C E) :
  Scripted.no_more_pending C a b -> Scripted.no_more_pending C b c ->
  Scripted.no_more_pending C a c.
Proof. unfold Scripted.no_more_pending. lia. Qed.

Lemma scripted_log lvl m :
  keeps C E (Scripted.no_more_pending C) (log C E lvl m).
Proof.
  intros st r st' H. inversion H; subst. apply le_n.
Qed.

Lemma scripted_udp q where_ timeout :
  keeps C E (Scripted.no_more_pending C) (udp C E q where_ timeout).
Proof.
  intros st r st' H. unfold udp in H. cbn in H.
  unfold Scripted.play_udp in H.
  unfold Scripted.no_more_pending, Scripted.pending.
  destruct (Scripted.resolver C (st_world st));
    inversion H; subst; apply le_n.
Qed.

Lemma scripted_recv s n :
  keeps C E (Scripted.no_more_pending C) (recv C E s n).
Proof.
  intros st r st' H. unfold recv in H. cbn in H.
  unfold Scripted.play_recv in H.
  unfold Scripted.no_more_pending, Scripted.pending.
  cbn in *.
  destruct (Scripted.inbox C (st_world st)) as [|x rest] eqn:Ei;
    inversion H; subst; cbn; rewrite ?Ei; simpl; lia.
Qed.

Lemma scripted_send s data :
  keeps C E (Scripted.no_more_pending C) (send C E s data).
Proof.
  intros st r st' H. inversion H; subst. apply le_n.
Qed.

Lemma scripted_recv_takes (s : socket) (n : Z) (st : state C E) data st1 :
  recv C E s n st = (Ok data, st1) ->
  (Scripted.pending C st1 < Scripted.pending C st)%nat.
Proof.
  unfold recv. cbn. unfold Scripted.play_recv, Scripted.pending.
  cbn.
  destruct (Scripted.inbox C (st_world st)) as [|x rest] eqn:Ei; intro H;
    inversion H; subst; cbn; lia.
Qed.

Lemma handle_loop_scripted_ends (fuel : nat) (s : socket) (addr : address) :
  forall query_count (st : state C E),
    (Scripted.pending C st < fuel)%nat ->
    handle_loop C E self fuel s addr query_count st <> None.
Proof.
  induction fuel as [|fuel IH]; intros qc st Hf; [lia|].
  cbn [handle_loop].
  destruct (recv C E s 2 st) as [[length_data|e] st1] eqn:Er;
    [|discriminate].
  apply scripted_recv_takes in Er.
  destruct (is_empty length_data); [discriminate|].
  destruct (len length_data <? 2); [discriminate|].
  match goal with
  | |- context [recv_payload C E ?k s ?L [] ?st2] =>
      pose proof (recv_payload_fuel C E k s L [] st2) as Hk;
      destruct (recv_payload C E k s L [] st2) as [[[qd|e] st3]|] eqn:Ep;
      [ | discriminate
      | exfalso; apply Hk; [unfold len; simpl; lia | reflexivity] ];
      apply (keeps_recv_payload C E (Scripted.no_more_pending C)
               no_more_pending_refl
               no_more_pending_trans scripted_recv) in Ep
  end.
  destruct (negb (len qd =? int_from_bytes length_data)); [discriminate|].
  destruct (forward_dns_query C E self qd st3) as [[resp|e] st4] eqn:Ef;
    [|discriminate].
  apply (keeps_forward_dns_query C E self (Scripted.no_more_pending C)
           no_more_pending_refl no_more_pending_trans
           scripted_log scripted_udp) in Ef.
  destruct (int_to_bytes (len resp) 2) as [prefix|e]; [|discriminate].
  destruct (send C E s (prefix ++ resp) st4) as [[n|e] st5] eqn:Es;
    [|discriminate].
  apply scripted_send in Es.
  apply IH.
  unfold Scripted.no_more_pending, Scripted.pending in *. cbn in *. lia.
Qed.

Lemma handle_client_scripted_ends (fuel : nat) (s : socket) (addr : address)
    (st : state C E) :
  (Scripted.pending C st < fuel)%nat ->
  exists r st', handle_client C E self fuel s addr st = Some (r, st').
Proof.
  intro Hf. unfold handle_client, serve.
  destruct (handle_loop C E self fuel s addr 0
              (snd (log C E INFO (NewConnection addr) st)))
    as [[[exit qc] st1]|] eqn:El.
  - destruct (teardown C E s addr exit qc st1) as [r st'].
    exists r, st'. reflexivity.
  - exfalso. revert El. apply handle_loop_scripted_ends. exact Hf.
Qed.

End ScriptedRuns.

(** ** Runs *)

Import Examples.

Lemma forward_dns_query_never_raises_witness :
  (Wire.from_wire junk_query = Raise TrailingJunk /\
   forward_dns_query Wire.codec env server junk_query (start [] [])
   = create_error_response Wire.codec env junk_query
       {| st_world := st_world (start [] []);
          st_trace := [EvLog WARNING (ErrorForwarding TrailingJunk)] |})
  /\ (exists (q : message Wire.codec) w1,
         Wire.from_wire query = Ok q /\
         query_udp Wire.codec env q "8.8.8.8" 5
           (st_world (start [] [Raise Timeout])) = (Raise Timeout, w1) /\
         forward_dns_query Wire.codec env server query
           (start [] [Raise Timeout])
         = create_error_response Wire.codec env query
             {| st_world := w1;
                st_trace :=
                  [EvLog DEBUG
                     (ForwardingQuery (first_question Wire.codec q) "8.8.8.8");
                   EvUdp q "8.8.8.8" 5;
                   EvLog WARNING (ErrorForwarding Timeout)] |}).
Proof.
  split.
  - split; [reflexivity|].
    destruct (forward_dns_query_never_raises Wire.codec env server
                junk_query (start [] [])) as [_ [H _]].
    exact (H TrailingJunk eq_refl).
  - eexists. eexists.
    split; [reflexivity|]. split; [reflexivity|].
    destruct (forward_dns_query_never_raises Wire.codec env server
                query (start [] [Raise Timeout])) as [_ [_ H]].
    exact (H _ Timeout _ eq_refl eq_refl).
Defined.

(** The run of tests/test_protocol.py, [test_partial_message_handling]:
    a frame that announces 16 bytes and delivers 7. *)
Lemma handle_client_closes_once_witness :
  exists r st',
    handle_client Wire.codec env server 3 sock client
      (start [Ok [x00; x10]; Ok [x70; x61; x72; x74; x69; x61; x6c]; Ok []] [])
    = Some (r, st') /\
    exists before after,
      st_trace st' = [] ++ before ++ EvClose sock :: after /\
      forallb (fun ev => negb (is_close ev)) before = true /\
      forallb is_log after = true /\
      closes (before ++ EvClose sock :: after) = 1%nat.
Proof.
  eexists. eexists. split; [reflexivity|].
  eapply (handle_client_closes_once Wire.codec env server 3 sock client
            (start [Ok [x00; x10]; Ok [x70; x61; x72; x74; x69; x61; x6c];
                    Ok []] [])).
  reflexivity.
Defined.

(** C3, as the specification has it, fails: the identifier and the
    question of [junk_query] can be recovered, the strict decoder rejects the
    message for its trailing byte, and [create_error_response] returns the
    empty byte sequence, not a SERVFAIL response. *)
Lemma create_error_response_drops_recoverable :
  Wire.recover_id_question junk_query
  = Some (4660, Wire.questions answer) /\
  Wire.from_wire junk_query = Raise TrailingJunk /\
  fst (create_error_response Wire.codec env junk_query (start [] []))
  = Ok [].
Proof.
  split; [reflexivity|]. split; reflexivity.
Qed.

Lemma create_error_response_servfail_witness :
  exists (q r : message Wire.codec) data,
    Wire.from_wire query = Ok q /\
    Wire.make_response q = Ok r /\
    Wire.to_wire (Wire.set_rcode r SERVFAIL) = Ok data /\
    fst (create_error_response Wire.codec env query (start [] [])) = Ok data /\
    data <> [] /\
    Wire.id (Wire.set_rcode r SERVFAIL) = Wire.id q /\
    Wire.questions (Wire.set_rcode r SERVFAIL) = Wire.questions q /\
    Wire.rcode (Wire.set_rcode r SERVFAIL) = SERVFAIL.
Proof.
  eexists. eexists. eexists.
  split; [reflexivity|]. split; [reflexivity|]. split; [reflexivity|].
  destruct (create_error_response_servfail Wire.codec env Wire_laws
              query (start [] [])) as [H _].
  exact (H _ _ _ eq_refl eq_refl eq_refl).
Defined.

(** A frame of 30 bytes that carries [junk_query]. *)
Lemma empty_error_response_is_framed_witness :
  (servfail_for Wire.codec env junk_query (start [] [])
   = (Raise TrailingJunk, start [] []) /\
   create_error_response Wire.codec env junk_query (start [] [])
   = (Ok [],
      snd (log Wire.codec env ERROR (FailedErrorResponse TrailingJunk)
             (start [] []))))
  /\ (forward_upstream Wire.codec env server junk_query (start [] [])
      = (Raise TrailingJunk, start [] []) /\
      forward_dns_query Wire.codec env server junk_query (start [] [])
      = (Ok [],
         {| st_world := st_world (start [] []);
            st_trace := [EvLog WARNING (ErrorForwarding TrailingJunk);
                         EvLog ERROR (FailedErrorResponse TrailingJunk)] |}))
  /\ exists st3 st4,
      reads_frame Wire.codec env sock client
        (start [Ok [x00; x1e]; Ok junk_query] []) junk_query st3 /\
      forward_dns_query Wire.codec env server junk_query st3 = (Ok [], st4) /\
      st_trace (snd (send Wire.codec env sock [x00; x00] st4))
      = st_trace st4 ++ [EvSend sock [x00; x00]] /\
      handle_loop Wire.codec env server 2 sock client 0
        (start [Ok [x00; x1e]; Ok junk_query] [])
      = match send Wire.codec env sock [x00; x00] st4 with
        | (Raise e, st5) => Some (Raised e, 0 + 1, st5)
        | (Ok _, st5) =>
            handle_loop Wire.codec env server 1 sock client (0 + 1)
              (snd (log Wire.codec env DEBUG (SentResponse 0 client) st5))
        end.
Proof.
  destruct (empty_error_response_is_framed Wire.codec env server 1 sock
              client 0 (start [] []) junk_query (start [] []))
    as [H1 [H2 _]].
  split; [|split].
  - split; [reflexivity|].
    exact (H1 (start [] []) TrailingJunk (start [] []) eq_refl).
  - split; [reflexivity|].
    exact (H2 TrailingJunk (start [] []) TrailingJunk _ eq_refl eq_refl).
  - eassert (Hf : reads_frame Wire.codec env sock client
                    (start [Ok [x00; x1e]; Ok junk_query] []) junk_query _).
    { eexists. eexists. split; [reflexivity|].
      split; [vm_compute; discriminate|]. split; reflexivity. }
    match type of Hf with
    | reads_frame _ _ _ _ _ _ ?st3 =>
        eassert (Hw : forward_dns_query Wire.codec env server junk_query st3
                      = (Ok [], _)) by reflexivity;
        destruct (empty_error_response_is_framed Wire.codec env server 1
                    sock client 0 (start [Ok [x00; x1e]; Ok junk_query] [])
                    junk_query st3) as [_ [_ H]]
    end.
    eexists. eexists. split; [exact Hf|]. split; [exact Hw|].
    exact (H _ Hf Hw).
Defined.

(** The runs of tests/test_server.py and tests/test_protocol.py: a peer
    that closes at once, a peer that sends one byte of length, and a peer
    that announces 16 bytes and delivers 7. *)
Lemma framing_violations_end_the_loop_witness :
  handle_loop Wire.codec env server 1 sock client 0 (start [Ok []] [])
  = Some (Break, 0,
          {| st_world := st_world (start [] []);
             st_trace := [EvRecv sock 2] |})
  /\ handle_loop Wire.codec env server 1 sock client 0 (start [Ok [x00]] [])
     = Some (Break, 0,
             {| st_world := st_world (start [] []);
                st_trace := [EvRecv sock 2;
                             EvLog WARNING (IncompleteLength client)] |})
  /\ handle_loop Wire.codec env server 1 sock client 0
       (start [Ok [x00; x10]; Ok [x70; x61; x72; x74; x69; x61; x6c]; Ok []]
              [])
     = Some (Break, 0,
             {| st_world := st_world (start [] []);
                st_trace := [EvRecv sock 2;
                             EvLog DEBUG (Expecting 16 client);
                             EvRecv sock 16;
                             EvRecv sock 9;
                             EvLog WARNING (IncompleteQuery client 16 7)] |})
  /\ recv_payload Wire.codec env 1 sock 16
       [x70; x61; x72; x74; x69; x61; x6c] (start [Ok []] [])
     = Some (Ok [x70; x61; x72; x74; x69; x61; x6c],
             {| st_world := st_world (start [] []);
                st_trace := [EvRecv sock 9] |}).
Proof.
  split; [|split; [|split]].
  - destruct (framing_violations_end_the_loop Wire.codec env server 0 sock
                client 0 (start [Ok []] [])) as [H _].
    exact (H _ eq_refl).
  - destruct (framing_violations_end_the_loop Wire.codec env server 0 sock
                client 0 (start [Ok [x00]] [])) as [_ [H _]].
    refine (H [x00] _ eq_refl _). vm_compute. split; reflexivity.
  - destruct (framing_violations_end_the_loop Wire.codec env server 0 sock
                client 0
                (start [Ok [x00; x10];
                        Ok [x70; x61; x72; x74; x69; x61; x6c]; Ok []] []))
      as [_ [_ [H _]]].
    refine (proj2 (H [x00; x10] _ [x70; x61; x72; x74; x69; x61; x6c] _
                     eq_refl _ eq_refl _)).
    + vm_compute. discriminate.
    + vm_compute. reflexivity.
  - destruct (framing_violations_end_the_loop Wire.codec env server 0 sock
                client 0 (start [] [])) as [_ [_ [_ H]]].
    refine (H 0%nat 16 [x70; x61; x72; x74; x69; x61; x6c]
              (start [Ok []] []) _ _ eq_refl).
    vm_compute. reflexivity.
Defined.

(** A frame that carries [query]; the resolver answers. *)
Lemma response_is_framed_witness :
  exists st3 response_data st4,
    reads_frame Wire.codec env sock client
      (start [Ok [x00; x1d]; Ok query] [Ok answer]) query st3 /\
    forward_dns_query Wire.codec env server query st3
    = (Ok response_data, st4) /\
    exists response_length,
      int_to_bytes (len response_data) 2 = Ok response_length /\
      List.length response_length = 2%nat /\
      int_from_bytes response_length = len response_data /\
      st_trace
        (snd (send Wire.codec env sock (response_length ++ response_data) st4))
      = st_trace st4 ++ [EvSend sock (response_length ++ response_data)] /\
      handle_loop Wire.codec env server 2 sock client 0
        (start [Ok [x00; x1d]; Ok query] [Ok answer])
      = match
          send Wire.codec env sock (response_length ++ response_data) st4
        with
        | (Raise e, st5) => Some (Raised e, 0 + 1, st5)
        | (Ok _, st5) =>
            handle_loop Wire.codec env server 1 sock client (0 + 1)
              (snd (log Wire.codec env DEBUG
                      (SentResponse (len response_data) client) st5))
        end.
Proof.
  eassert (Hf : reads_frame Wire.codec env sock client
                  (start [Ok [x00; x1d]; Ok query] [Ok answer]) query _).
  { eexists. eexists. split; [reflexivity|].
    split; [vm_compute; discriminate|]. split; reflexivity. }
  match type of Hf with
  | reads_frame _ _ _ _ _ _ ?st3 =>
      eassert (Hw : forward_dns_query Wire.codec env server query st3
                    = (Ok _, _)) by reflexivity
  end.
  eexists. eexists. eexists. split; [exact Hf|]. split; [exact Hw|].
  exact (response_is_framed Wire.codec env server Wire_laws 1 sock client 0
           _ _ _ _ _ Hf Hw).
Defined.

(** A frame of one byte; the stand-in of the resolver serializes to 65536
    bytes. *)
Lemma oversized_response_tears_down_witness :
  exists st3 st4,
    reads_frame Patched.codec patched_env sock client
      (patched_start [Ok [x00; x01]; Ok [x2a]]
                     [Ok {| Patched.wire := oversized |}])
      [x2a] st3 /\
    forward_dns_query Patched.codec patched_env server [x2a] st3
    = (Ok oversized, st4) /\
    65535 < len oversized /\
    int_to_bytes (len oversized) 2 = Raise OverflowError /\
    handle_loop Patched.codec patched_env server 1 sock client 0
      (patched_start [Ok [x00; x01]; Ok [x2a]]
                     [Ok {| Patched.wire := oversized |}])
    = Some (Raised OverflowError, 0 + 1, st4) /\
    grows_by (fun ev => negb (is_send ev) && negb (is_close ev))
      (patched_start [Ok [x00; x01]; Ok [x2a]]
                     [Ok {| Patched.wire := oversized |}]) st4 /\
    exists r st',
      serve Patched.codec patched_env server 1 sock client 0
        (patched_start [Ok [x00; x01]; Ok [x2a]]
                       [Ok {| Patched.wire := oversized |}])
      = Some (r, st') /\
      st_trace st'
      = st_trace st4
        ++ EvLog ERROR (ErrorHandlingClient client OverflowError)
        :: EvClose sock
        :: match r with
           | Ok _ => [EvLog INFO (ConnectionClosed client (0 + 1))]
           | Raise _ => []
           end.
Proof.
  eassert (Hf : reads_frame Patched.codec patched_env sock client
                  (patched_start [Ok [x00; x01]; Ok [x2a]]
                                 [Ok {| Patched.wire := oversized |}])
                  [x2a] _).
  { eexists. eexists. split; [reflexivity|].
    split; [vm_compute; discriminate|]. split; reflexivity. }
  match type of Hf with
  | reads_frame _ _ _ _ _ _ ?st3 =>
      eassert (Hw : forward_dns_query Patched.codec patched_env server
                      [x2a] st3
                    = (Ok oversized, _)) by reflexivity
  end.
  assert (Hl : 65535 < len oversized) by (vm_compute; reflexivity).
  eexists. eexists. split; [exact Hf|]. split; [exact Hw|].
  split; [exact Hl|].
  exact (oversized_response_tears_down Patched.codec patched_env server 0
           sock client 0 _ _ _ _ _ Hf Hw Hl).
Defined.

Lemma zero_length_frame_is_answered_witness :
  sock_recv Wire.codec env sock 2 (st_world (start [Ok [x00; x00]] []))
  = (Ok [x00; x00], st_world (start [] [])) /\
  Wire.from_wire [] = Raise ShortHeader /\
  handle_loop Wire.codec env server 2 sock client 0
    (start [Ok [x00; x00]] [])
  = match
      send Wire.codec env sock [x00; x00]
        {| st_world := st_world (start [] []);
           st_trace := [EvRecv sock 2;
                        EvLog DEBUG (Expecting 0 client);
                        EvLog WARNING (ErrorForwarding ShortHeader);
                        EvLog ERROR (FailedErrorResponse ShortHeader)] |}
    with
    | (Raise e', st5) => Some (Raised e', 0 + 1, st5)
    | (Ok _, st5) =>
        handle_loop Wire.codec env server 1 sock client (0 + 1)
          (snd (log Wire.codec env DEBUG (SentResponse 0 client) st5))
    end.
Proof.
  split; [reflexivity|]. split; [reflexivity|].
  exact (proj2 (proj2
    (zero_length_frame_is_answered Wire.codec env server 1 sock client 0
       (start [Ok [x00; x00]] []) (st_world (start [] [])) ShortHeader
       eq_refl eq_refl))).
Defined.

(** The peer delivers the first byte of a length prefix, and has the
    second one ready: it is never read. *)
Lemma short_length_read_closes_witness :
  serve Wire.codec env server 1 sock client 0
    (start [Ok [x00]; Ok [x10]] [])
  = Some (Ok tt,
          {| st_world := st_world (start [Ok [x10]] []);
             st_trace := [EvRecv sock 2;
                          EvLog WARNING (IncompleteLength client);
                          EvClose sock;
                          EvLog INFO (ConnectionClosed client 0)] |}).
Proof.
  exact (short_length_read_closes Wire.codec env server 0 sock client 0
           (start [Ok [x00]; Ok [x10]] []) x00
           (st_world (start [Ok [x10]] [])) (Ok tt)
           (st_world (start [Ok [x10]] [])) eq_refl eq_refl).
Defined.

(** ** More on the forwarder and the error responder *)
Section ForwarderMore.

Variable C : Codec.
Variable E : Env C.
Variable self : DNSOverTLSServer.

(** The error responder changes nothing but the log. *)
Lemma create_error_response_is_local0 (query_data : bytes)
    (st : state C E) :
  exists response logs,
    create_error_response C E query_data st
    = (Ok response,
       {| st_world := st_world st; st_trace := st_trace st ++ logs |}) /\
    forallb is_log logs = true /\
    (1 <= List.length logs <= 2)%nat.
Proof.
  unfold create_error_response, try_except, servfail_for, bind, eval, log,
    ret, record.
  destruct (from_wire C query_data) as [query|e].
  - destruct (make_response C query) as [response|e].
    + cbn [st_world st_trace].
      destruct (to_wire C (set_rcode C response SERVFAIL)) as [data|e].
      * exists data, [EvLog DEBUG CreatedServfail].
        repeat split; simpl; lia.
      * exists [], [EvLog DEBUG CreatedServfail;
                    EvLog ERROR (FailedErrorResponse e)].
        cbn [st_world st_trace]. rewrite <- app_assoc.
        repeat split; simpl; lia.
    + exists [], [EvLog ERROR (FailedErrorResponse e)].
      repeat split; simpl; lia.
  - exists [], [EvLog ERROR (FailedErrorResponse e)].
    repeat split; simpl; lia.
Qed.

(** X1. [create_error_response] is local: on every input and in every state
    it returns, leaves the peer and the network as they were, and adds
    nothing to the trace but one or two log calls. *)
Theorem create_error_response_is_local (query_data : bytes)
    (st : state C E) :
  exists response logs,
    create_error_response C E query_data st
    = (Ok response,
       {| st_world := st_world st; st_trace := st_trace st ++ logs |}) /\
    forallb is_log logs = true /\
    (1 <= List.length logs <= 2)%nat.
Proof.
  exact (create_error_response_is_local0 query_data st).
Qed.

Lemma udps_app (a b : list (event C)) : udps (a ++ b) = (udps a + udps b)%nat.
Proof. unfold udps. rewrite filter_app, length_app. reflexivity. Qed.

Lemma udps_logs (l : list (event C)) :
  forallb is_log l = true -> udps l = 0%nat.
Proof.
  unfold udps. induction l as [|ev l IH]; simpl; [reflexivity|].
  intro H. apply andb_prop in H. destruct H as [H1 H2].
  destruct ev; simpl in *; try discriminate. apply IH, H2.
Qed.

Lemma logs_are_forwarding (upstream : string) (l : list (event C)) :
  forallb is_log l = true -> forallb (is_forwarding upstream) l = true.
Proof.
  intro H. rewrite forallb_forall in *. intros ev Hin.
  specialize (H ev Hin). destruct ev; simpl in *; congruence.
Qed.

(** After the events [pre], the error responder adds log calls only. *)
Lemma error_response_after (upstream : string) (query_data : bytes)
    (st : state C E) (w : world C E) (pre : list (event C)) :
  forallb (is_forwarding upstream) pre = true ->
  exists response evs,
    create_error_response C E query_data
      {| st_world := w; st_trace := st_trace st ++ pre |}
    = (Ok response, {| st_world := w; st_trace := st_trace st ++ evs |}) /\
    forallb (is_forwarding upstream) evs = true /\
    udps evs = udps pre.
Proof.
  intro Hp.
  destruct (create_error_response_is_local0 query_data
              {| st_world := w; st_trace := st_trace st ++ pre |})
    as (response & logs & Hc & Hl & _).
  cbn [st_world st_trace] in Hc.
  exists response, (pre ++ logs). split; [|split].
  - rewrite Hc, app_assoc. reflexivity.
  - rewrite forallb_app, Hp, (logs_are_forwarding _ _ Hl). reflexivity.
  - rewrite udps_app, (udps_logs _ Hl). lia.
Qed.

(** X2. [forward_dns_query] calls [dns.query.udp] at most once, on the
    configured resolver with timeout 5, and not at all when the query does
    not decode; beside that call it only logs: it never reads from, writes
    to or closes a socket.  When it makes no call, the peer and the network
    are as they were. *)
Theorem forward_dns_query_one_request (query_data : bytes) (st : state C E) :
  exists response w evs,
    forward_dns_query C E self query_data st
    = (Ok response, {| st_world := w; st_trace := st_trace st ++ evs |}) /\
    forallb (is_forwarding (upstream_dns self)) evs = true /\
    (udps evs <= 1)%nat /\
    (udps evs = 0%nat -> w = st_world st) /\
    (forall e, from_wire C query_data = Raise e -> udps evs = 0%nat).
Proof.
  pose (up := upstream_dns self).
  unfold forward_dns_query, try_except, forward_upstream, bind, eval, udp,
    log, record.
  destruct (from_wire C query_data) as [query|e0] eqn:Eq.
  - cbn [st_world st_trace]. fold up.
    pose (fw := @EvLog C DEBUG (ForwardingQuery (first_question C query) up)).
    pose (rq := EvUdp query up 5).
    assert (Hrq : is_forwarding up rq = true)
      by (cbn; rewrite String.eqb_refl; reflexivity).
    destruct (query_udp C E query up 5 (st_world st)) as [[r|e] w1].
    + cbn [st_world st_trace].
      pose (rc := @EvLog C DEBUG
                    (ReceivedResponse (first_question C query)
                                      (len (msg_answer C r)))).
      destruct (to_wire C r) as [data|e].
      * exists data, w1, [fw; rq; rc]. split.
        { rewrite <- !app_assoc. reflexivity. }
        cbn [forallb]. rewrite Hrq.
        repeat split; cbn; try lia; try discriminate.
      * destruct (error_response_after up query_data st w1
                    [fw; rq; rc; EvLog WARNING (ErrorForwarding e)])
          as (resp & evs & Hc & Hf & Hu);
          [cbn [forallb]; rewrite Hrq; reflexivity|].
        exists resp, w1, evs. split.
        { rewrite <- Hc, <- !app_assoc. reflexivity. }
        split; [exact Hf|]. rewrite Hu. cbn.
        repeat split; try lia; try discriminate.
    + cbn [st_world st_trace].
      destruct (error_response_after up query_data st w1
                  [fw; rq; EvLog WARNING (ErrorForwarding e)])
        as (resp & evs & Hc & Hf & Hu);
        [cbn [forallb]; rewrite Hrq; reflexivity|].
      exists resp, w1, evs. split.
      { rewrite <- Hc, <- !app_assoc. reflexivity. }
      split; [exact Hf|]. rewrite Hu. cbn.
      repeat split; try lia; try discriminate.
  - cbn [st_world st_trace].
    destruct (error_response_after up query_data st (st_world st)
                [EvLog WARNING (ErrorForwarding e0)])
      as (resp & evs & Hc & Hf & Hu); [reflexivity|].
    exists resp, (st_world st), evs. split; [exact Hc|].
    split; [exact Hf|]. rewrite Hu. cbn.
    repeat split; try lia; try reflexivity.
Qed.

End ForwarderMore.

(** ** More on the length prefix *)

Lemma byte_of_Z_of_byte (b : byte) : byte_of_Z (Z_of_byte b) = b.
Proof.
  unfold byte_of_Z.
  rewrite Z.mod_small by apply Z_of_byte_range.
  unfold Z_of_byte. rewrite N2Z.id, Byte.of_to_N. reflexivity.
Qed.

Lemma int_from_bytes_snoc (data : bytes) (b : byte) :
  int_from_bytes (data ++ [b]) = int_from_bytes data * 256 + Z_of_byte b.
Proof.
  rewrite int_from_bytes_app. unfold len. cbn [List.length].
  change (256 ^ Z.of_nat 1) with 256.
  unfold int_from_bytes at 2. simpl. lia.
Qed.

Lemma int_from_bytes_range (data : bytes) :
  0 <= int_from_bytes data < 256 ^ len data.
Proof.
  induction data as [|b data IH] using rev_ind.
  - unfold len. simpl. unfold int_from_bytes. simpl. lia.
  - rewrite int_from_bytes_snoc. unfold len in *. rewrite length_app.
    cbn [List.length].
    replace (Z.of_nat (List.length data + 1))
      with (Z.of_nat (List.length data) + 1) by lia.
    rewrite Z.pow_add_r by lia. change (256 ^ 1) with 256.
    pose proof (Z_of_byte_range b). lia.
Qed.

Lemma big_endian_of_int_from_bytes (data : bytes) :
  big_endian (List.length data) (int_from_bytes data) = data.
Proof.
  induction data as [|b data IH] using rev_ind; [reflexivity|].
  rewrite length_app. cbn [List.length].
  replace (List.length data + 1)%nat with (S (List.length data)) by lia.
  cbn [big_endian]. rewrite int_from_bytes_snoc.
  pose proof (Z_of_byte_range b) as Hb.
  replace ((int_from_bytes data * 256 + Z_of_byte b) / 256)
    with (int_from_bytes data)
    by (apply Z.div_unique with (r := Z_of_byte b); lia).
  rewrite IH. f_equal. f_equal.
  unfold byte_of_Z.
  replace ((int_from_bytes data * 256 + Z_of_byte b) mod 256)
    with (Z_of_byte b)
    by (apply Z.mod_unique with (q := int_from_bytes data); lia).
  unfold Z_of_byte. rewrite N2Z.id, Byte.of_to_N. reflexivity.
Qed.

(** X3. Decoding then encoding: [int.from_bytes(data, "big")] lies in
    [0, 256^len(data)), so a 2-byte prefix never announces more than 65535
    bytes, and [to_bytes(len(data), "big")] of it does not raise and gives
    [data] back.  With C5, the 2-byte prefixes and the lengths 0..65535
    correspond one to one. *)
Theorem length_prefix_decodes (data : bytes) :
  0 <= int_from_bytes data < 256 ^ len data /\
  int_to_bytes (int_from_bytes data) (List.length data) = Ok data.
Proof.
  pose proof (int_from_bytes_range data) as Hr.
  split; [exact Hr|].
  unfold int_to_bytes. unfold len in Hr.
  replace (0 <=? int_from_bytes data) with true
    by (symmetry; apply Z.leb_le; lia).
  replace (int_from_bytes data <? 256 ^ Z.of_nat (List.length data))
    with true by (symmetry; apply Z.ltb_lt; lia).
  cbn [andb]. rewrite big_endian_of_int_from_bytes. reflexivity.
Qed.

(** ** More on the connection handler *)
Section HandlerMore.

Variable C : Codec.
Variable E : Env C.
Variable self : DNSOverTLSServer.

(** X4. When the query decodes and a response can be made from it and
    serialized, a failure of the resolver (the [dns.query.udp] call raises,
    or the message it returns cannot be serialized) gives the client the
    SERVFAIL response: non-empty, with the identifier and the question
    section of the query. *)
Theorem upstream_failure_gives_servfail (L : CodecLaws C)
    (query_data : bytes) (st : state C E) query response data e w1 :
  from_wire C query_data = Ok query ->
  make_response C query = Ok response ->
  to_wire C (set_rcode C response SERVFAIL) = Ok data ->
  query_udp C E query (upstream_dns self) 5 (st_world st) = (Raise e, w1)
  \/ (exists answer,
         query_udp C E query (upstream_dns self) 5 (st_world st)
         = (Ok answer, w1) /\
         to_wire C answer = Raise e) ->
  fst (forward_dns_query C E self query_data st) = Ok data /\
  data <> [] /\
  msg_id C (set_rcode C response SERVFAIL) = msg_id C query /\
  msg_question C (set_rcode C response SERVFAIL) = msg_question C query /\
  msg_rcode C (set_rcode C response SERVFAIL) = SERVFAIL.
Proof.
  intros Hq Hr Hw Hu.
  split; [|split; [|split; [|split]]].
  - unfold forward_dns_query, try_except, forward_upstream, bind, eval, udp,
      log. rewrite Hq. cbn [st_world record].
    destruct Hu as [Hu|(answer & Hu & Ha)]; rewrite Hu;
      cbn [st_world record]; rewrite ?Ha;
      unfold create_error_response, try_except, servfail_for, bind, eval,
        log; rewrite Hq, Hr, Hw; reflexivity.
  - apply (to_wire_header C L) in Hw. intro Hd. subst data.
    unfold len in Hw. simpl in Hw. lia.
  - rewrite (set_rcode_id C L). apply (make_response_id C L). exact Hr.
  - rewrite (set_rcode_question C L).
    apply (make_response_question C L). exact Hr.
  - apply (set_rcode_rcode C L). unfold SERVFAIL. lia.
Qed.

(** X5. When the query decodes to a message from which [make_response]
    refuses to make a response (dnspython refuses a message that has the QR
    bit set), a failure of the resolver leaves nothing to answer with: the
    forwarder returns the empty byte sequence. *)
Theorem upstream_failure_without_response (query_data : bytes)
    (st : state C E) query e e' w1 :
  from_wire C query_data = Ok query ->
  make_response C query = Raise e' ->
  query_udp C E query (upstream_dns self) 5 (st_world st) = (Raise e, w1)
  \/ (exists answer,
         query_udp C E query (upstream_dns self) 5 (st_world st)
         = (Ok answer, w1) /\
         to_wire C answer = Raise e) ->
  fst (forward_dns_query C E self query_data st) = Ok [].
Proof.
  intros Hq Hr Hu.
  unfold forward_dns_query, try_except, forward_upstream, bind, eval, udp,
    log. rewrite Hq. cbn [st_world record].
  destruct Hu as [Hu|(answer & Hu & Ha)]; rewrite Hu;
    cbn [st_world record]; rewrite ?Ha;
    unfold create_error_response, try_except, servfail_for, bind, eval,
      log; rewrite Hq, Hr; reflexivity.
Qed.

(** X6. No exception of [recv], of the forwarder, of the length encoding
    or of [send] leaves [handle_client]: when [close()] does not raise, every
    run that ends returns normally. *)
Theorem handle_client_contains_exceptions (fuel : nat) (s : socket)
    (addr : address) (st : state C E) r st' :
  (forall w, exists w', sock_close C E s w = (Ok tt, w')) ->
  handle_client C E self fuel s addr st = Some (r, st') ->
  r = Ok tt.
Proof.
  intros Hc H. unfold handle_client, serve in H.
  destruct (handle_loop C E self fuel s addr 0
              (snd (log C E INFO (NewConnection addr) st)))
    as [[[exit qc] st1]|]; [|discriminate].
  inversion H as [Hrun]; clear H.
  unfold teardown, try_finally, ret, bind, close, log in Hrun.
  destruct exit as [|e]; cbn [st_world record] in Hrun;
    destruct (Hc (st_world st1)) as [w' Hw]; rewrite Hw in Hrun;
    inversion Hrun; reflexivity.
Qed.

End HandlerMore.

(** ** Counting what the handler does *)
Section HandlerCounts.

Variable C : Codec.
Variable E : Env C.
Variable self : DNSOverTLSServer.

Lemma sends_app (a b : list (event C)) :
  sends (a ++ b) = (sends a + sends b)%nat.
Proof. unfold sends. rewrite filter_app, length_app. reflexivity. Qed.

Lemma sends_none (l : list (event C)) :
  forallb (fun ev => negb (is_send ev)) l = true -> sends l = 0%nat.
Proof.
  unfold sends. induction l as [|ev l IH]; simpl; [reflexivity|].
  intro H. apply andb_prop in H. destruct H as [H1 H2].
  destruct (is_send ev); [discriminate|]. apply IH, H2.
Qed.

Lemma is_recv_within_more (s : socket) (m m' : Z) (l : list (event C)) :
  m <= m' ->
  forallb (is_recv_within s m) l = true ->
  forallb (is_recv_within s m') l = true.
Proof.
  intros Hm H. rewrite forallb_forall in *. intros ev Hin.
  specialize (H ev Hin). destruct ev; simpl in *; try discriminate.
  apply andb_prop in H. destruct H as [H1 H2].
  rewrite H1. cbn [andb]. apply Z.leb_le. apply Z.leb_le in H2. lia.
Qed.

(** X7. The payload loop asks for what is missing and no more: each of its
    [recv] calls is on the socket of the connection, for at least one byte
    and at most the number of bytes that were missing when the loop started,
    and it makes at most that many calls. *)
Theorem recv_payload_requests (fuel : nat) (s : socket) (query_length : Z) :
  forall (query_data : bytes) (st : state C E) r st',
    recv_payload C E fuel s query_length query_data st = Some (r, st') ->
    exists evs,
      st_trace st' = st_trace st ++ evs /\
      forallb (is_recv_within s (query_length - len query_data)) evs = true /\
      Z.of_nat (List.length evs) <= Z.max 0 (query_length - len query_data).
Proof.
  induction fuel as [|fuel IH]; intros query_data st r st' H;
    cbn [recv_payload] in H;
    destruct (len query_data <? query_length) eqn:El;
    try discriminate;
    try (inversion H; subst; exists []; rewrite app_nil_r;
         repeat split; simpl; lia).
  apply Z.ltb_lt in El.
  assert (Hev : is_recv_within s (query_length - len query_data)
                  (@EvRecv C s (query_length - len query_data)) = true).
  { cbn. rewrite Nat.eqb_refl. cbn [andb].
    apply andb_true_intro. split; [apply Z.ltb_lt | apply Z.leb_le]; lia. }
  unfold recv in H.
  destruct (sock_recv C E s (query_length - len query_data) (st_world st))
    as [[chunk|e] w1].
  - destruct chunk as [|b chunk]; cbn [is_empty] in H.
    + inversion H; subst.
      exists [EvRecv s (query_length - len query_data)].
      split; [reflexivity|]. split; [cbn [forallb]; rewrite Hev; reflexivity|].
      simpl. lia.
    + apply IH in H. destruct H as (evs & Ht & Hf & Hn).
      exists (EvRecv s (query_length - len query_data) :: evs).
      split; [|split].
      * rewrite Ht. unfold record. cbn [st_trace].
        rewrite <- app_assoc. reflexivity.
      * cbn [forallb]. rewrite Hev. cbn [andb].
        eapply is_recv_within_more; [|exact Hf].
        unfold len. rewrite length_app. lia.
      * unfold len in *. rewrite length_app in Hn. cbn [List.length] in *.
        lia.
  - inversion H; subst.
    exists [EvRecv s (query_length - len query_data)].
    split; [reflexivity|]. split; [cbn [forallb]; rewrite Hev; reflexivity|].
    simpl. lia.
Qed.

Lemma quiet_steps (a b : state C E) :
  grows_by (fun ev => negb (is_send ev)) a b ->
  exists evs, st_trace b = st_trace a ++ evs /\ sends evs = 0%nat.
Proof.
  intros (evs & Ht & Hf). exists evs. split; [exact Ht|].
  apply sends_none, Hf.
Qed.

Lemma handle_loop_counts (fuel : nat) (s : socket) (addr : address) :
  forall query_count (st : state C E) exit query_count' st',
    handle_loop C E self fuel s addr query_count st
    = Some (exit, query_count', st') ->
    exists evs,
      st_trace st' = st_trace st ++ evs /\
      Z.of_nat (sends evs) <= query_count' - query_count
                           <= Z.of_nat (sends evs) + 1 /\
      (exit = Break -> query_count' - query_count = Z.of_nat (sends evs)).
Proof.
  set (N := fun ev : event C => negb (is_send ev)).
  assert (Nl : forall lvl m, N (EvLog lvl m) = true) by reflexivity.
  assert (Nu : forall q w t, N (EvUdp q w t) = true) by reflexivity.
  assert (Nr : forall s' n, N (@EvRecv C s' n) = true) by reflexivity.
  assert (Quiet : forall (a b : state C E) exit qc,
             grows_by N a b ->
             (exit = Break \/ True) ->
             exists evs,
               st_trace b = st_trace a ++ evs /\
               Z.of_nat (sends evs) <= qc - qc <= Z.of_nat (sends evs) + 1 /\
               (exit = Break -> qc - qc = Z.of_nat (sends evs))).
  { intros a b exit qc G _. apply quiet_steps in G.
    destruct G as (evs & Ht & Hs). exists evs. rewrite Hs.
    split; [exact Ht|]. split; [simpl; lia|]. intros _. simpl. lia. }
  induction fuel as [|fuel IH]; intros qc st exit qc' st' H;
    cbn [handle_loop] in H; [discriminate|].
  destruct (recv C E s 2 st) as [[length_data|e] st1] eqn:Er;
    apply (recv_grows C E N Nr) in Er;
    [|inversion H; subst; apply (Quiet _ _ (Raised e) qc' Er); auto].
  destruct (is_empty length_data);
    [inversion H; subst; apply (Quiet _ _ Break qc' Er); auto|].
  destruct (len length_data <? 2).
  { inversion H; subst. apply (Quiet _ _ Break qc'); auto.
    eapply grows_by_trans; [exact Er|].
    apply grows_by_record, Nl. }
  match type of H with
  | context [recv_payload C E ?k s ?L [] ?st2] =>
      destruct (recv_payload C E k s L [] st2) as [[[qd|e] st3]|] eqn:Ep;
      [ | | discriminate ];
      apply (recv_payload_grows C E N Nr) in Ep;
      assert (G3 : grows_by N st st3)
        by (eapply grows_by_trans; [exact Er|];
            eapply grows_by_trans; [|exact Ep];
            apply grows_by_record, Nl)
  end; [|inversion H; subst; apply (Quiet _ _ (Raised e) qc' G3); auto].
  destruct (negb (len qd =? int_from_bytes length_data)).
  { inversion H; subst. apply (Quiet _ _ Break qc'); auto.
    eapply grows_by_trans; [exact G3|]. apply grows_by_record, Nl. }
  destruct (forward_dns_query C E self qd st3) as [[resp|e] st4] eqn:Ef;
    apply (forward_dns_query_grows C E self N Nl Nu) in Ef;
    assert (G4 : grows_by N st st4)
      by (eapply grows_by_trans; [exact G3|exact Ef]);
    apply quiet_steps in G4; destruct G4 as (e4 & Ht4 & Hs4).
  2:{ inversion H; subst. exists e4. rewrite Hs4.
      split; [exact Ht4|]. split; [simpl; lia|]. discriminate. }
  destruct (int_to_bytes (len resp) 2) as [prefix|e].
  2:{ inversion H; subst. exists e4. rewrite Hs4.
      split; [exact Ht4|]. split; [simpl; lia|]. discriminate. }
  pose proof (send_trace C E s (prefix ++ resp) st4) as Hts.
  destruct (send C E s (prefix ++ resp) st4) as [[n|e] st5] eqn:Es;
    cbn [snd] in Hts.
  2:{ inversion H; subst. exists (e4 ++ [EvSend s (prefix ++ resp)]).
      rewrite sends_app, Hs4. split.
      - rewrite Hts, Ht4, app_assoc. reflexivity.
      - split; [simpl; lia|]. discriminate. }
  apply IH in H. destruct H as (evs & Ht & Hn & Hb).
  unfold log, record in Ht. cbn [snd st_trace] in Ht.
  exists (e4 ++ [EvSend s (prefix ++ resp)]
          ++ [EvLog DEBUG (SentResponse (len resp) addr)] ++ evs).
  rewrite !sends_app, Hs4. cbn [sends filter is_send List.length].
  split; [|split].
  - rewrite Ht, Hts, Ht4, <- !app_assoc. reflexivity.
  - cbn. lia.
  - intro Hx. specialize (Hb Hx). cbn. lia.
Qed.

(** X8. The processed-query counter and the responses: over any stretch
    of the loop, the counter grows by the number of [send] calls made, or by
    one more when the connection fails between counting a query and sending
    its response; when the loop is left by [break], the two are equal. *)
Theorem query_count_accounts_for_sends (fuel : nat) (s : socket)
    (addr : address) (query_count : Z) (st : state C E)
    exit query_count' st' :
  handle_loop C E self fuel s addr query_count st
  = Some (exit, query_count', st') ->
  exists evs,
    st_trace st' = st_trace st ++ evs /\
    Z.of_nat (sends evs) <= query_count' - query_count
                         <= Z.of_nat (sends evs) + 1 /\
    (exit = Break -> query_count' - query_count = Z.of_nat (sends evs)).
Proof.
  apply handle_loop_counts.
Qed.

End HandlerCounts.

(** ** Frames over a byte stream *)

Lemma split_left {A : Type} (a : list A) :
  forall b x y,
    a ++ x = b ++ y -> (List.length a <= List.length b)%nat ->
    b = a ++ skipn (List.length a) b /\ x = skipn (List.length a) b ++ y.
Proof.
  induction a as [|h a IH]; intros b x y H Hl.
  - simpl in *. split; [reflexivity | exact H].
  - destruct b as [|h' b]; [simpl in Hl; lia|].
    simpl in H. inversion H; subst h'.
    destruct (IH b x y) as [Ha Hb]; [assumption | simpl in Hl; lia|].
    simpl. split; [f_equal; exact Ha | exact Hb].
Qed.

Lemma split_right {A : Type} (b : list A) :
  forall a x y,
    a ++ x = b ++ y -> (List.length b <= List.length a)%nat ->
    firstn (List.length b) a = b /\ skipn (List.length b) a ++ x = y.
Proof.
  induction b as [|h b IH]; intros a x y H Hl.
  - simpl in *. split; [reflexivity | exact H].
  - destruct a as [|h' a]; [simpl in Hl; lia|].
    simpl in H. inversion H; subst h'.
    destruct (IH a x y) as [Ha Hb]; [assumption | simpl in Hl; lia|].
    simpl. split; [f_equal; exact Ha | exact Hb].
Qed.

Section StreamRuns.

Variable C : Codec.
Variable self : DNSOverTLSServer.

Local Abbreviation E := (Stream.env C) (only parsing).

Local Abbreviation whole := Stream.whole (only parsing).

Lemma stream_read_first (s : socket) (n : Z) (st : state C E)
    first rest :
  Stream.unread C st = first :: rest ->
  exists st1,
    recv C E s n st
    = (Ok (firstn (Z.to_nat n) first), st1) /\
    Stream.unread C st1 = Stream.after_read (Z.to_nat n) (first :: rest) /\
    Stream.resolver C (st_world st1) = Stream.resolver C (st_world st) /\
    st_trace st1 = st_trace st ++ [EvRecv s n].
Proof.
  unfold Stream.unread. intro Hu. unfold recv. cbn [sock_recv Stream.env].
  unfold Stream.read. rewrite Hu. cbn [Stream.after_read].
  destruct (List.length first <=? Z.to_nat n)%nat eqn:El.
  - apply Nat.leb_le in El. rewrite firstn_all2 by exact El.
    eexists. split; [reflexivity|]. repeat split.
  - eexists. split; [reflexivity|]. repeat split.
Qed.

(** The payload loop puts together what the segments carry. *)
Lemma recv_payload_reassembles (s : socket) (query_length : Z) :
  forall (k f : nat) (data acc : bytes) (st : state C E) (tail : bytes),
    Forall whole (Stream.unread C st) ->
    List.concat (Stream.unread C st) = data ++ tail ->
    len acc + len data = query_length ->
    (List.length data <= k)%nat ->
    (List.length data <= f)%nat ->
    exists st',
      recv_payload C E k s query_length acc st = Some (Ok (acc ++ data), st') /\
      Stream.unread C st'
      = Stream.after_payload f (List.length data) (Stream.unread C st) /\
      Stream.resolver C (st_world st') = Stream.resolver C (st_world st) /\
      grows_by is_recv st st' /\
      Forall whole (Stream.unread C st') /\
      List.concat (Stream.unread C st') = tail.
Proof.
  induction k as [|k IH]; intros f data acc st tail Hw Hc Hl Hk Hf.
  - destruct data as [|d data]; [|simpl in Hk; lia].
    exists st. cbn [recv_payload].
    replace (len acc <? query_length) with false
      by (symmetry; apply Z.ltb_ge; unfold len in *; simpl in *; lia).
    rewrite app_nil_r. split; [reflexivity|].
    split; [destruct f; reflexivity|]. split; [reflexivity|].
    split; [apply grows_by_refl|]. split; [exact Hw | exact Hc].
  - destruct data as [|d data].
    + exists st. cbn [recv_payload].
      replace (len acc <? query_length) with false
        by (symmetry; apply Z.ltb_ge; unfold len in *; simpl in *; lia).
      rewrite app_nil_r. split; [reflexivity|].
      split; [destruct f; reflexivity|]. split; [reflexivity|].
      split; [apply grows_by_refl|]. split; [exact Hw | exact Hc].
    + assert (Hlt : len acc < query_length)
        by (unfold len in *; simpl in *; lia).
      unfold len in Hl at 2.
      remember (List.length (d :: data)) as n eqn:En.
      destruct n as [|n]; [discriminate En|].
      assert (Hn : query_length - len acc = Z.of_nat (S n)) by lia.
      destruct f as [|f]; [lia|].
      destruct (Stream.unread C st) as [|first rest] eqn:Hu;
        [simpl in Hc; discriminate|].
      apply Forall_cons_iff in Hw. destruct Hw as [Hfirst Hrest].
      cbn [recv_payload].
      replace (len acc <? query_length) with true
        by (symmetry; apply Z.ltb_lt; exact Hlt).
      rewrite Hn.
      destruct (stream_read_first s (Z.of_nat (S n)) st first rest Hu)
        as (st1 & Hr & Hu1 & Hres1 & Ht1).
      rewrite Nat2Z.id in Hr, Hu1. rewrite Hr.
      cbn [Stream.after_read] in Hu1. cbn [List.concat] in Hc.
      assert (G1 : grows_by is_recv st st1)
        by (exists [EvRecv s (Z.of_nat (S n))];
            split; [exact Ht1|reflexivity]).
      cbn [Stream.after_payload].
      destruct (List.length first <=? S n)%nat eqn:El.
      * apply Nat.leb_le in El.
        rewrite firstn_all2 by exact El.
        destruct first as [|b first]; [exfalso; apply Hfirst; reflexivity|].
        cbn [is_empty].
        destruct (split_left (b :: first) (d :: data) (List.concat rest) tail
                    Hc) as [Hd Hrest']; [rewrite <- En; exact El|].
        set (data' := skipn (List.length (b :: first)) (d :: data)) in *.
        assert (Hlen : (List.length data' = S n - List.length (b :: first))%nat)
          by (unfold data'; rewrite length_skipn, <- En; reflexivity).
        destruct (IH f data' (acc ++ b :: first) st1 tail) as
          (st' & Hp & Hu' & Hres' & G' & Hw' & Hc').
        { rewrite Hu1. exact Hrest. }
        { rewrite Hu1. exact Hrest'. }
        { unfold len in *. rewrite length_app. cbn [List.length] in *. lia. }
        { cbn [List.length] in *. lia. }
        { cbn [List.length] in *. lia. }
        exists st'. split; [|split; [|split; [|split]]].
        -- rewrite Hp, <- app_assoc, <- Hd. reflexivity.
        -- rewrite Hu', Hu1, Hlen. reflexivity.
        -- rewrite Hres', Hres1. reflexivity.
        -- eapply grows_by_trans; eassumption.
        -- split; assumption.
      * apply Nat.leb_gt in El.
        destruct (split_right (d :: data) first (List.concat rest) tail Hc)
          as [Hd Hrest']; [rewrite <- En; lia|].
        rewrite <- En in Hd, Hrest'. rewrite Hd. cbn [is_empty].
        destruct (IH f [] (acc ++ d :: data) st1 tail) as
          (st' & Hp & Hu' & Hres' & G' & Hw' & Hc').
        { rewrite Hu1. constructor; [|exact Hrest].
          unfold Stream.whole. intro Hs.
          assert (Hz : List.length (skipn (S n) first) = 0%nat)
            by (rewrite Hs; reflexivity).
          rewrite length_skipn in Hz. lia. }
        { rewrite Hu1. cbn [List.concat app]. exact Hrest'. }
        { unfold len in *. rewrite length_app. rewrite <- En.
          cbn [List.length]. lia. }
        { simpl. lia. }
        { simpl. lia. }
        exists st'. rewrite app_nil_r in Hp.
        split; [exact Hp|]. split; [|split; [|split]].
        -- rewrite Hu', Hu1. destruct f; reflexivity.
        -- rewrite Hres', Hres1. reflexivity.
        -- eapply grows_by_trans; eassumption.
        -- split; assumption.
Qed.






(** X9. Reassembly.  However the stream cuts the bytes of a payload into
    segments, the payload loop returns exactly the announced bytes, by
    [recv] calls only, and leaves what follows them in the stream unread. *)
Theorem payload_is_reassembled (s : socket) (payload tail : bytes)
    (st : state C E) :
  Forall whole (Stream.unread C st) ->
  List.concat (Stream.unread C st) = payload ++ tail ->
  exists st',
    recv_payload C E (S (Z.to_nat (len payload))) s (len payload) [] st
    = Some (Ok payload, st') /\
    List.concat (Stream.unread C st') = tail /\
    grows_by is_recv st st'.
Proof.
  intros Hw Hc.
  destruct (recv_payload_reassembles s (len payload)
              (S (Z.to_nat (len payload))) (List.length payload)
              payload [] st tail Hw Hc)
    as (st' & Hp & _ & _ & G & _ & Ht).
  - unfold len. simpl. lia.
  - unfold len. rewrite Nat2Z.id. lia.
  - lia.
  - exists st'. split; [exact Hp|]. split; [exact Ht | exact G].
Qed.


End StreamRuns.

(** ** The listener *)
Section ListenerFacts.

Variable E : Listener.Env.
Variable self : DNSOverTLSServer.

(** The trace of [st'] is the trace of [st] and the events [evs] after it. *)
Local Abbreviation gains st st' evs :=
  (Listener.st_trace st' = Listener.st_trace st ++ evs) (only parsing).

Lemma listener_call_gains {A : Type} (ev : Listener.event)
    (op : Listener.world E -> Listener.result A * Listener.world E)
    (st : Listener.state E) r st' :
  Listener.call E ev op st = (r, st') -> gains st st' [ev].
Proof.
  unfold Listener.call. destruct (op (Listener.st_world st)) as [r0 w].
  intro H. inversion H; subst. reflexivity.
Qed.

Lemma create_ssl_context_gains (st : Listener.state E) r st' :
  Listener.create_ssl_context E self st = (r, st') ->
  exists evs,
    gains st st' evs /\
    forallb Listener.is_setup evs = true /\
    (forall e, r = Listener.Raising (Listener.Exc e) ->
       exists before,
         evs = before ++ [Listener.Log ERROR (Listener.ContextFailed e)]).
Proof.
  unfold Listener.create_ssl_context, Listener.except_Exception,
    Listener.bind, Listener.log, Listener.call, Listener.ret, Listener.raise.
  destruct (Listener.new_context E (Listener.st_world st)) as [[context|x] w1];
    cbn [Listener.st_world Listener.st_trace].
  - destruct (Listener.load_cert_chain E context (cert_file self)
                (key_file self) w1) as [[u|x] w2];
      cbn [Listener.st_world Listener.st_trace].
    + intro H. inversion H; subst. cbn [Listener.st_trace].
      eexists. split; [rewrite <- !app_assoc; reflexivity|].
      split; [reflexivity|]. discriminate.
    + destruct x as [e|]; intro H; inversion H; subst;
        cbn [Listener.st_trace].
      * eexists. split; [rewrite <- !app_assoc; reflexivity|].
        split; [reflexivity|]. intros e' He. inversion He; subst.
        exists [Listener.SSLContext;
                Listener.LoadCertChain context (cert_file self)
                  (key_file self)].
        reflexivity.
      * eexists. split; [rewrite <- !app_assoc; reflexivity|].
        split; [reflexivity|]. discriminate.
  - destruct x as [e|]; intro H; inversion H; subst; cbn [Listener.st_trace].
    + eexists. split; [rewrite <- !app_assoc; reflexivity|].
      split; [reflexivity|]. intros e' He. inversion He; subst.
      exists [Listener.SSLContext]. reflexivity.
    + eexists. split; [reflexivity|]. split; [reflexivity|]. discriminate.
Qed.

Lemma start_unfold (fuel : nat) (st : Listener.state E) :
  Listener.start E self fuel st
  = match
      Listener.create_ssl_context E self (Listener.announced E self st)
    with
    | (Listener.Raising x, st1) => Some (Listener.Raising x, st1)
    | (Listener.Returned context, st1) =>
        Listener.with_socket E
          (Listener.listen_and_serve E self fuel context) st1
    end.
Proof.
  unfold Listener.start, Listener.bind at 1 2, Listener.log, Listener.call.
  cbn [Listener.st_world Listener.st_trace].
  unfold Listener.announced. rewrite <- app_assoc. reflexivity.
Qed.

(** X11. [start] fails fast: when [create_ssl_context] raises, [start]
    raises the same exception at once; up to then it has only logged and
    tried to build the context, so no socket was created, bound or listened
    on.  An [Exception] is logged as an error before it is raised again. *)
Theorem start_fails_fast (fuel : nat) (st : Listener.state E) x st1 :
  Listener.create_ssl_context E self (Listener.announced E self st)
  = (Listener.Raising x, st1) ->
  Listener.start E self fuel st = Some (Listener.Raising x, st1) /\
  exists evs,
    gains st st1 evs /\
    forallb Listener.is_setup evs = true /\
    (forall e, x = Listener.Exc e ->
       exists before,
         evs = before ++ [Listener.Log ERROR (Listener.ContextFailed e)]).
Proof.
  intro H. split; [rewrite start_unfold, H; reflexivity|].
  destruct (create_ssl_context_gains _ _ _ H) as (evs & Hg & Hs & Hl).
  exists ([Listener.Log INFO (Listener.Starting (host self) (port self));
           Listener.Log INFO (Listener.UpstreamServer (upstream_dns self))]
          ++ evs).
  split; [|split].
  - rewrite Hg. unfold Listener.announced. cbn [Listener.st_trace].
    rewrite <- app_assoc. reflexivity.
  - cbn [forallb app Listener.is_setup]. exact Hs.
  - intros e He. subst x. destruct (Hl e eq_refl) as (before & Hb).
    exists ([Listener.Log INFO (Listener.Starting (host self) (port self));
             Listener.Log INFO
               (Listener.UpstreamServer (upstream_dns self))] ++ before).
    rewrite Hb, <- app_assoc. reflexivity.
Qed.

Lemma listener_threads_app (a b : list Listener.event) :
  Listener.threads (a ++ b) = Listener.threads a ++ Listener.threads b.
Proof.
  induction a as [|ev a IH]; [reflexivity|].
  destruct ev; simpl; rewrite IH; reflexivity.
Qed.

Lemma listener_closed_app (a b : list Listener.event) :
  Listener.closed (a ++ b) = Listener.closed a ++ Listener.closed b.
Proof.
  induction a as [|ev a IH]; [reflexivity|].
  destruct ev; simpl; rewrite IH; reflexivity.
Qed.

Lemma listener_accepts_app (a b : list Listener.event) :
  Listener.accepts (a ++ b)
  = (Listener.accepts a + Listener.accepts b)%nat.
Proof.
  unfold Listener.accepts. rewrite filter_app, length_app. reflexivity.
Qed.

Lemma listener_handshakes_app (a b : list Listener.event) :
  Listener.handshakes (a ++ b)
  = (Listener.handshakes a + Listener.handshakes b)%nat.
Proof.
  unfold Listener.handshakes. rewrite filter_app, length_app. reflexivity.
Qed.

(** What one turn of the accept loop adds to the trace. *)
Lemma accept_one_gains (context : Listener.ssl_context) (sock : socket)
    (st : Listener.state E) t st' :
  Listener.accept_one E context sock st = (t, st') ->
  exists evs,
    gains st st' evs /\
    Listener.accepts evs = 1%nat /\
    (Listener.handshakes evs <= 1)%nat /\
    (List.length (Listener.threads evs) + List.length (Listener.closed evs)
     <= Listener.handshakes evs)%nat /\
    (t = Listener.Continue ->
     Listener.handshakes evs = 1%nat /\
     (List.length (Listener.threads evs)
      + List.length (Listener.closed evs))%nat = 1%nat).
Proof.
  unfold Listener.accept_one, Listener.bind, Listener.log, Listener.call.
  destruct (Listener.accept_socket E sock (Listener.st_world st))
    as [[[client addr]|x] w1]; cbn [Listener.st_world Listener.st_trace].
  2:{ intro H. inversion H; subst. eexists. split; [reflexivity|].
      cbn. repeat split; try lia; discriminate. }
  destruct (Listener.wrap_socket E context client w1) as [[ssl|[e|]] w2];
    cbn [Listener.st_world Listener.st_trace].
  - destruct (Listener.start_thread E ssl addr w2) as [[u|x] w3];
      intro H; inversion H; subst; cbn [Listener.st_trace];
      (eexists; split; [rewrite <- !app_assoc; reflexivity|]);
      cbn; repeat split; try lia; discriminate.
  - destruct (Listener.close_socket E client w2) as [[u|x] w3];
      intro H; inversion H; subst; cbn [Listener.st_trace];
      (eexists; split; [rewrite <- !app_assoc; reflexivity|]);
      cbn; repeat split; try lia; discriminate.
  - intro H. inversion H; subst. cbn [Listener.st_trace].
    eexists. split; [rewrite <- !app_assoc; reflexivity|].
    cbn. repeat split; try lia; discriminate.
Qed.

Lemma accept_loop_counts (context : Listener.ssl_context) (sock : socket) :
  forall (fuel : nat) (st : Listener.state E) x st',
    Listener.accept_loop E fuel context sock st = Some (x, st') ->
    exists evs,
      gains st st' evs /\
      (Listener.handshakes evs <= Listener.accepts evs
       <= Listener.handshakes evs + 1)%nat /\
      (List.length (Listener.threads evs) + List.length (Listener.closed evs)
       <= Listener.handshakes evs
       <= List.length (Listener.threads evs)
          + List.length (Listener.closed evs) + 1)%nat /\
      (1 <= Listener.accepts evs)%nat.
Proof.
  induction fuel as [|fuel IH]; intros st x st' H;
    cbn [Listener.accept_loop] in H; [discriminate|].
  destruct (Listener.accept_one E context sock st) as [[|y] st1] eqn:E1;
    apply accept_one_gains in E1;
    destruct E1 as (e1 & G1 & Ha & Hw & Ht & Hc).
  - destruct (Hc eq_refl) as [Hw1 Ht1].
    apply IH in H. destruct H as (evs & G & Hwa & Htw & Hone).
    exists (e1 ++ evs). split; [rewrite G, G1, app_assoc; reflexivity|].
    rewrite listener_accepts_app, listener_handshakes_app,
      listener_threads_app, listener_closed_app, !length_app.
    lia.
  - inversion H; subst. exists e1. split; [exact G1|]. lia.
Qed.


Lemma listen_and_serve_gains (fuel : nat) (context : Listener.ssl_context)
    (sock : socket) (st : Listener.state E) r st' :
  Listener.listen_and_serve E self fuel context sock st = Some (r, st') ->
  exists evs,
    gains st st' evs /\
    (forall u, r = Listener.Returned u ->
       exists before,
         evs = before ++ [Listener.Log INFO Listener.ShutdownSignal]).
Proof.
  unfold Listener.listen_and_serve, Listener.bind, Listener.log,
    Listener.call.
  destruct (Listener.set_reuseaddr E sock (Listener.st_world st))
    as [[u1|x] w1]; cbn [Listener.st_world Listener.st_trace].
  2:{ intro H. inversion H; subst. eexists. split; [reflexivity|].
      discriminate. }
  destruct (Listener.bind_socket E sock (host self) (port self) w1)
    as [[u2|x] w2]; cbn [Listener.st_world Listener.st_trace].
  2:{ intro H. inversion H; subst. cbn [Listener.st_trace].
      eexists. split; [rewrite <- !app_assoc; reflexivity|]. discriminate. }
  destruct (Listener.listen_socket E sock 5 w2) as [[u3|x] w3];
    cbn [Listener.st_world Listener.st_trace].
  2:{ intro H. inversion H; subst. cbn [Listener.st_trace].
      eexists. split; [rewrite <- !app_assoc; reflexivity|]. discriminate. }
  match goal with
  | |- context [Listener.accept_loop E fuel context sock ?s1] =>
      destruct (Listener.accept_loop E fuel context sock s1)
        as [[x st2]|] eqn:El; [|discriminate]
  end.
  apply accept_loop_counts in El. destruct El as (evs & G & _).
  cbn [Listener.st_trace] in G.
  unfold Listener.except_KeyboardInterrupt, Listener.raise.
  destruct x as [e|]; intro H; inversion H; subst; cbn [Listener.st_trace].
  - eexists. split; [rewrite G, <- !app_assoc; reflexivity|]. discriminate.
  - eexists. split; [rewrite G, <- !app_assoc; reflexivity|].
    intros u _.
    exists ([Listener.Setsockopt sock;
             Listener.Bind sock (host self) (port self);
             Listener.Listen sock 5;
             Listener.Log INFO (Listener.Listening (host self) (port self))]
            ++ evs).
    rewrite <- !app_assoc. reflexivity.
Qed.

Lemma start_gains (fuel : nat) (st : Listener.state E) context st1 r st' :
  Listener.create_ssl_context E self (Listener.announced E self st)
  = (Listener.Returned context, st1) ->
  Listener.start E self fuel st = Some (r, st') ->
  exists evs,
    gains st st' evs /\
    forall sock st2,
      Listener.call E Listener.Socket (Listener.new_socket E) st1
      = (Listener.Returned sock, st2) ->
      (exists before, evs = before ++ [Listener.Close sock]) /\
      (forall u, r = Listener.Returned u ->
         exists before,
           evs = before ++ [Listener.Log INFO Listener.ShutdownSignal;
                            Listener.Close sock]).
Proof.
  intros Hc H. rewrite start_unfold, Hc in H.
  apply create_ssl_context_gains in Hc. destruct Hc as (e0 & G0 & _).
  unfold Listener.announced in G0. cbn [Listener.st_trace] in G0.
  unfold Listener.with_socket in H.
  destruct (Listener.call E Listener.Socket (Listener.new_socket E) st1)
    as [[sock|x] st2] eqn:Es.
  2:{ inversion H; subst. apply listener_call_gains in Es.
      eexists. split; [rewrite Es, G0, <- !app_assoc; reflexivity|].
      intros sock st2 Hs. discriminate. }
  pose proof (listener_call_gains _ _ _ _ _ Es) as G2.
  destruct (Listener.listen_and_serve E self fuel context sock st2)
    as [[r3 st3]|] eqn:El; [|discriminate].
  apply listen_and_serve_gains in El. destruct El as (e3 & G3 & Hr3).
  set (opening :=
         [Listener.Log INFO (Listener.Starting (host self) (port self));
          Listener.Log INFO (Listener.UpstreamServer (upstream_dns self))])
    in *.
  assert (G4 : forall st4 : Listener.state E,
             gains st3 st4 [Listener.Close sock] ->
             gains st st4
               ((opening ++ e0 ++ [Listener.Socket] ++ e3)
                ++ [Listener.Close sock])).
  { intros st4 Hg. rewrite Hg, G3, G2, G0, <- !app_assoc. reflexivity. }
  destruct (Listener.call E (Listener.Close sock)
              (Listener.close_socket E sock) st3) as [[u|x] st4] eqn:Ec;
    apply listener_call_gains in Ec; inversion H; subst r st';
    exists ((opening ++ e0 ++ [Listener.Socket] ++ e3)
            ++ [Listener.Close sock]);
    (split; [exact (G4 _ Ec)|]);
    intros sock' st2' Hs; inversion Hs; subst sock' st2';
    (split; [exists (opening ++ e0 ++ [Listener.Socket] ++ e3);
             reflexivity|]).
  - intros u' Hu. destruct (Hr3 u' Hu) as (before & Hb).
    exists (opening ++ e0 ++ [Listener.Socket] ++ before).
    rewrite Hb, <- !app_assoc. reflexivity.
  - discriminate.
Qed.

(** X13. The [with] statement of [start]: once [socket.socket()] has
    returned the listening socket, every run of [start] that ends, by return
    or by any exception, ends with the [close()] of that socket. *)
Theorem listening_socket_is_released (fuel : nat) (st : Listener.state E)
    context st1 sock st2 r st' :
  Listener.create_ssl_context E self (Listener.announced E self st)
  = (Listener.Returned context, st1) ->
  Listener.call E Listener.Socket (Listener.new_socket E) st1
  = (Listener.Returned sock, st2) ->
  Listener.start E self fuel st = Some (r, st') ->
  exists before, gains st st' (before ++ [Listener.Close sock]).
Proof.
  intros Hc Hs H.
  destruct (start_gains fuel st context st1 r st' Hc H) as (evs & G & Hl).
  destruct (Hl sock st2 Hs) as [(before & Hb) _].
  exists before. rewrite <- Hb. exact G.
Qed.


End ListenerFacts.

(** ** A scripted run of the listener *)
Section ListenerRuns.

Variable self : DNSOverTLSServer.

Local Abbreviation E := Listener.scripted_env (only parsing).

Lemma scripted_accept_loop (context : Listener.ssl_context) (sock : socket) :
  forall (connections : list Listener.connection) (fuel : nat)
         (st : Listener.state E),
    Listener.arriving (Listener.st_world st) = connections ->
    (List.length connections < fuel)%nat ->
    exists evs st',
      Listener.accept_loop E fuel context sock st
      = Some (Listener.KeyboardInterrupt, st') /\
      Listener.st_trace st' = Listener.st_trace st ++ evs /\
      Listener.threads evs = Listener.handed_over connections /\
      Listener.closed evs = Listener.turned_away connections /\
      Listener.arriving (Listener.st_world st') = [].
Proof.
  induction connections as [|c rest IH]; intros fuel st Ha Hf;
    (destruct fuel as [|fuel]; [simpl in Hf; lia|]);
    cbn [Listener.accept_loop]; unfold Listener.accept_one, Listener.call;
    cbn [Listener.accept_socket Listener.scripted_env];
    unfold Listener.scripted_accept; rewrite Ha.
  - eexists. eexists. split; [reflexivity|].
    cbn [Listener.st_trace Listener.st_world].
    split; [reflexivity|]. repeat split. exact Ha.
  - cbn [Listener.st_world Listener.st_trace Listener.wrap_socket
           Listener.scripted_env].
    unfold Listener.scripted_wrap. cbn [Listener.shaking Listener.arriving].
    cbn [Listener.handed_over Listener.turned_away].
    destruct (Listener.handshake c) as [ssl|e];
      unfold Listener.bind, Listener.log, Listener.call;
      cbn [Listener.st_world Listener.st_trace Listener.start_thread
             Listener.close_socket Listener.scripted_env];
      match goal with
      | |- context [Listener.accept_loop E fuel context sock ?s1] =>
          destruct (IH fuel s1) as (evs & st' & Hl & Ht & Hth & Hcl & Hend);
          [reflexivity | simpl in Hf; lia |]
      end;
      cbn [Listener.st_trace] in Ht; rewrite Hl;
      eexists; exists st'; (split; [reflexivity|]);
      (split; [rewrite Ht, <- !app_assoc; reflexivity|]);
      cbn [app Listener.threads Listener.closed]; rewrite Hth, Hcl;
      repeat split; exact Hend.
Qed.

(** X15. A run of [start] from connection to interrupt.  When the
    certificate loads and the listening socket (socket 3) binds, and the
    connections of a list arrive before Ctrl-C: [start] returns normally; it
    has started one thread, on the TLS socket and with the address, for each
    connection whose handshake succeeded, in order of arrival, and none for
    the others; and it has closed the raw socket of each connection whose
    handshake failed, and then the listening socket. *)
Theorem scripted_listener_run (connections : list Listener.connection)
    (fuel : nat) :
  (List.length connections < fuel)%nat ->
  exists st',
    Listener.start E self fuel (Listener.scripted_start connections)
    = Some (Listener.Returned tt, st') /\
    Listener.threads (Listener.st_trace st')
    = Listener.handed_over connections /\
    Listener.closed (Listener.st_trace st')
    = Listener.turned_away connections ++ [3%nat] /\
    Listener.arriving (Listener.st_world st') = [].
Proof.
  intro Hf.
  rewrite start_unfold.
  unfold Listener.create_ssl_context, Listener.except_Exception,
    Listener.bind, Listener.log, Listener.call, Listener.ret.
  cbn [Listener.new_context Listener.load_cert_chain Listener.scripted_env
         Listener.st_world Listener.st_trace Listener.announced
         Listener.scripted_start].
  unfold Listener.with_socket, Listener.call.
  cbn [Listener.new_socket Listener.scripted_env Listener.st_world
         Listener.st_trace].
  unfold Listener.listen_and_serve, Listener.bind, Listener.log,
    Listener.call.
  cbn [Listener.set_reuseaddr Listener.bind_socket Listener.listen_socket
         Listener.scripted_env Listener.st_world Listener.st_trace].
  match goal with
  | |- context [Listener.accept_loop E fuel ?ctx ?sock ?s1] =>
      destruct (scripted_accept_loop ctx sock connections fuel s1)
        as (evs & st2 & Hl & Ht & Hth & Hcl & Hend);
      [reflexivity | exact Hf |]
  end.
  rewrite Hl. cbn [Listener.st_trace] in Ht.
  unfold Listener.except_KeyboardInterrupt, Listener.raise, Listener.log,
    Listener.call.
  cbn [Listener.close_socket Listener.scripted_env Listener.st_world
         Listener.st_trace].
  eexists. split; [reflexivity|].
  cbn [Listener.st_trace Listener.st_world]. rewrite Ht.
  rewrite !listener_threads_app, !listener_closed_app, Hth, Hcl.
  cbn [Listener.threads Listener.closed app].
  rewrite !app_nil_r. split; [reflexivity|]. split; [reflexivity|].
  exact Hend.
Qed.

End ListenerRuns.

(** ** More runs *)

(** The run of tests/test_protocol.py, [test_upstream_dns_timeout]. *)
Lemma upstream_failure_gives_servfail_witness :
  exists (q r : message Wire.codec) data,
    Wire.from_wire query = Ok q /\
    Wire.make_response q = Ok r /\
    Wire.to_wire (Wire.set_rcode r SERVFAIL) = Ok data /\
    fst (forward_dns_query Wire.codec env server query
           (start [] [Raise Timeout])) = Ok data /\
    data <> [] /\
    Wire.id (Wire.set_rcode r SERVFAIL) = Wire.id q /\
    Wire.questions (Wire.set_rcode r SERVFAIL) = Wire.questions q /\
    Wire.rcode (Wire.set_rcode r SERVFAIL) = SERVFAIL.
Proof.
  eexists. eexists. eexists.
  split; [reflexivity|]. split; [reflexivity|]. split; [reflexivity|].
  refine (upstream_failure_gives_servfail Wire.codec env server Wire_laws
            query (start [] [Raise Timeout]) _ _ _ Timeout
            (st_world (start [] [])) eq_refl eq_refl eq_refl _).
  left. reflexivity.
Defined.

Lemma upstream_failure_without_response_witness :
  (exists q : message Wire.codec,
      Wire.from_wire answer_as_query = Ok q /\
      Wire.make_response q = Raise FormError) /\
  fst (forward_dns_query Wire.codec env server answer_as_query
         (start [] [Raise Timeout])) = Ok [].
Proof.
  split.
  - eexists. split; reflexivity.
  - refine (upstream_failure_without_response Wire.codec env server
              answer_as_query (start [] [Raise Timeout]) _ Timeout FormError
              (st_world (start [] [])) eq_refl eq_refl _).
    left. reflexivity.
Defined.

(** The run of tests/test_protocol.py, [test_ssl_socket_errors]. *)
Lemma handle_client_contains_exceptions_witness :
  exists st',
    handle_client Wire.codec env server 1 sock client
      (start [Raise OSError] []) = Some (Ok tt, st').
Proof.
  eexists.
  assert (H : exists r st',
             handle_client Wire.codec env server 1 sock client
               (start [Raise OSError] []) = Some (r, st'))
    by (eexists; eexists; reflexivity).
  destruct H as (r & st' & H).
  pose proof (handle_client_contains_exceptions Wire.codec env server 1
                sock client (start [Raise OSError] []) r st'
                (fun w => ex_intro _ w eq_refl) H) as Hr.
  reflexivity.
Defined.

Lemma recv_payload_requests_witness :
  exists r st' evs,
    recv_payload Wire.codec env 17 sock 16 []
      (start [Ok [x70; x61; x72; x74; x69; x61; x6c]; Ok []] [])
    = Some (r, st') /\
    st_trace st' = [] ++ evs /\
    forallb (is_recv_within sock (16 - len (@nil byte))) evs = true /\
    Z.of_nat (List.length evs) <= Z.max 0 (16 - len (@nil byte)).
Proof.
  eexists. eexists.
  assert (H : recv_payload Wire.codec env 17 sock 16 []
                (start [Ok [x70; x61; x72; x74; x69; x61; x6c]; Ok []] [])
              = Some (_, _)) by reflexivity.
  destruct (recv_payload_requests Wire.codec env 17 sock 16 [] _ _ _ H)
    as (evs & H1 & H2 & H3).
  exists evs. split; [exact H|]. split; [exact H1|]. split; assumption.
Defined.

Lemma query_count_accounts_for_sends_witness :
  exists exit n st' evs,
    handle_loop Wire.codec env server 3 sock client 0
      (start [Ok [x00; x1d]; Ok query; Ok []] [Ok answer])
    = Some (exit, n, st') /\
    st_trace st' = [] ++ evs /\
    Z.of_nat (sends evs) <= n - 0 <= Z.of_nat (sends evs) + 1 /\
    (exit = Break -> n - 0 = Z.of_nat (sends evs)).
Proof.
  eexists. eexists. eexists.
  assert (H : handle_loop Wire.codec env server 3 sock client 0
                (start [Ok [x00; x1d]; Ok query; Ok []] [Ok answer])
              = Some (_, _, _)) by reflexivity.
  destruct (query_count_accounts_for_sends Wire.codec env server 3 sock
              client 0 _ _ _ _ H) as (evs & H1 & H2 & H3).
  exists evs. split; [exact H|]. split; [exact H1|]. split; assumption.
Defined.

Lemma payload_is_reassembled_witness :
  exists st',
    recv_payload Wire.codec stream_env 5 sock 4 []
      (Stream.start Wire.codec [[x01; x02]; [x03]; [x04; x05; x06]] [])
    = Some (Ok [x01; x02; x03; x04], st') /\
    List.concat (Stream.unread Wire.codec st') = [x05; x06] /\
    grows_by is_recv
      (Stream.start Wire.codec [[x01; x02]; [x03]; [x04; x05; x06]] []) st'.
Proof.
  refine (payload_is_reassembled Wire.codec sock [x01; x02; x03; x04]
            [x05; x06]
            (Stream.start Wire.codec [[x01; x02]; [x03]; [x04; x05; x06]] [])
            _ eq_refl).
  repeat constructor; discriminate.
Defined.


(** The run of tests/test_server.py, [test_create_ssl_context_failure],
    seen from [start]. *)
Lemma start_fails_fast_witness :
  exists st1,
    Listener.create_ssl_context Listener.no_certificate_env server
      (Listener.announced Listener.no_certificate_env server
         {| Listener.st_world :=
              ({| Listener.arriving := Listener.three_connections;
                  Listener.shaking := None |}
               : Listener.world Listener.no_certificate_env);
            Listener.st_trace := [] |})
    = (Listener.Raising (Listener.Exc OSError), st1) /\
    Listener.start Listener.no_certificate_env server 0
      {| Listener.st_world :=
           ({| Listener.arriving := Listener.three_connections;
               Listener.shaking := None |}
            : Listener.world Listener.no_certificate_env);
         Listener.st_trace := [] |}
    = Some (Listener.Raising (Listener.Exc OSError), st1) /\
    exists evs,
      Listener.st_trace st1 = [] ++ evs /\
      forallb Listener.is_setup evs = true /\
      (forall e, Listener.Exc OSError = Listener.Exc e ->
         exists before,
           evs = before ++ [Listener.Log ERROR (Listener.ContextFailed e)]).
Proof.
  eexists. split; [reflexivity|].
  refine (start_fails_fast Listener.no_certificate_env server 0 _ _ _ _).
  reflexivity.
Defined.

(** [run_of H t]: [H] states that [t] is equal to its value. *)
Ltac run_of H t :=
  let v := eval vm_compute in t in
  assert (H : t = v) by (vm_compute; reflexivity).


Lemma listening_socket_is_released_witness :
  exists r st' before,
    Listener.start Listener.scripted_env server 4
      (Listener.scripted_start Listener.three_connections)
    = Some (r, st') /\
    Listener.st_trace st' = [] ++ before ++ [Listener.Close 3%nat].
Proof.
  run_of Hc (Listener.create_ssl_context Listener.scripted_env server
               (Listener.announced Listener.scripted_env server
                  (Listener.scripted_start Listener.three_connections))).
  match type of Hc with
  | _ = (Listener.Returned ?context, ?st1) =>
      run_of Hs (Listener.call Listener.scripted_env Listener.Socket
                   (Listener.new_socket Listener.scripted_env) st1)
  end.
  run_of H (Listener.start Listener.scripted_env server 4
              (Listener.scripted_start Listener.three_connections)).
  match type of H with
  | _ = Some (?r, ?st') =>
      destruct (listening_socket_is_released Listener.scripted_env server 4
                  (Listener.scripted_start Listener.three_connections)
                  _ _ 3%nat _ r st' Hc Hs H) as (before & Hb);
      exists r, st', before
  end.
  split; [exact H | exact Hb].
Defined.


Lemma scripted_listener_run_witness :
  exists st',
    Listener.start Listener.scripted_env server 4
      (Listener.scripted_start Listener.three_connections)
    = Some (Listener.Returned tt, st') /\
    Listener.threads (Listener.st_trace st')
    = [(5%nat, client); (8%nat, ("127.0.0.1"%string, 12347))] /\
    Listener.closed (Listener.st_trace st') = [6%nat; 3%nat] /\
    Listener.arriving (Listener.st_world st') = [].
Proof.
  refine (scripted_listener_run server Listener.three_connections 4 _).
  simpl. lia.
Defined.
